(** * Circle manager (src/control/circle_mgr.cxx): model and properties

    The circle manager steers a fixed-wing aircraft around a point.  Each
    tick, [AuraCircleMgr::update] reads the circle configuration and the
    vehicle state from the property tree, computes a target ground course
    and a target bank angle, and writes them back together with the
    distance and the time to the centre.

    Numbers: a C++ [double] is idealised as a real number ([R]), and the
    arithmetic on doubles as exact.  Infinities and NaN are outside this
    model: the source divides by the L1 period, and what is proved of the
    bank is proved for a period other than 0 ([track_accel_ieee] says what
    the source has at 0).  Where the exact arithmetic simplifies a course
    that the doubles only approach, the course is stated up to a tolerance.
    What [setFloatValue] stores is narrowed to a 32-bit float, as in the
    source. *)

From Stdlib Require Import Reals Lra Lia ZArith Zfloor String Ascii List.
From stdpp Require Import gmap strings.

Open Scope R_scope.
Open Scope string_scope.

(** ** The property tree *)

(** A node handle is the path of the leaf it points to. *)
Abbreviation node := string (only parsing).

(** Modelled from the spec: the leaves of the property tree (props.hxx is
    not part of the sources).  "leaves hold scalars or strings"; a leaf that
    was created but never written has no type yet. *)
Inductive value :=
| VNone
| VDouble (x : R)
| VFloat (x : R)
| VString (s : string).

(** The world the manager runs in: the leaves of the tree, the record of
    every [set...Value] call made so far (oldest first), and what has been
    printed on standard output (oldest first). *)
Record world := World {
  tree : gmap string value;
  writes : list (node * value);
  stdout : list string
}.

(** A C++ position on the globe, as built by [SGWayPoint( lon, lat )]. *)
Record SGWayPoint := WayPoint { target_lon : R; target_lat : R }.

(** What the manager takes from code that is not in these sources: the
    geodesic helper [SGWayPoint::CourseAndDistance] (control/waypoint.hxx),
    and the conversions the property tree applies when a leaf of one type is
    read as another. *)
Record Env := {
  CourseAndDistance : SGWayPoint -> R -> R -> R -> R * R;
  strtod : string -> R;
  dtostr : R -> string
}.

(** Computations over the world; [None] is a NULL handle dereferenced. *)
Definition M (A : Type) : Type := world -> option (A * world).

Definition ret {A} (a : A) : M A := fun w => Some (a, w).

Definition andThen {A B} (c : M A) (k : A -> M B) : M B :=
  fun w => match c w with
           | Some (a, w') => k a w'
           | None => None
           end.

Notation "x <- c ;; k" := (andThen c (fun x => k))
  (at level 100, c at next level, right associativity).
Notation "c ;;; k" := (andThen c (fun _ => k))
  (at level 100, right associativity).

Definition crash {A} : M A := fun _ => None.

(** ** Narrowing to [float] *)

(** The integer nearest to [r]; a tie goes to the even one. *)
Definition nearest_even (r : R) : Z :=
  let f := Zfloor r in
  let d := r - IZR f in
  if Rlt_dec d (1 / 2) then f
  else if Rgt_dec d (1 / 2) then (f + 1)%Z
  else if Z.even f then f else (f + 1)%Z.

(** The exponent of a magnitude [a] as a 32-bit float: the least [e'], from
    [e] on, with [a < 2^(e' + 1)], and at most [fuel] above [e]. *)
Fixpoint float_exponent (fuel : nat) (e : Z) (a : R) : Z :=
  match fuel with
  | O => e
  | S k => if Rlt_dec a (powerRZ 2 (e + 1)) then e
           else float_exponent k (e + 1) a
  end.

(** A [double] passed where the source takes a [float]: rounded to 24
    significant bits, ties to even, with an exponent from -126 to 127.
    Beyond the largest float the source has an infinity, which is outside
    this model. *)
Definition narrow (x : R) : R :=
  let e := float_exponent 253 (-126) (Rabs x) in
  IZR (nearest_even (x * powerRZ 2 (23 - e))) * powerRZ 2 (e - 23).

(** What a leaf holds; a missing leaf reads like one that was created and
    never written. *)
Definition leaf_value (t : gmap string value) (n : node) : value :=
  match t !! n with Some v => v | None => VNone end.

Section PropertyTree.
Variable env : Env.

(** Modelled from the spec: [fgGetNode( path, create )].  "Missing
    blackboard keys are auto-created by the binding layer with default
    zero values". *)
Definition fgGetNode (path : string) (create : bool) : M (option node) :=
  fun w =>
    match tree w !! path with
    | Some _ => Some (Some path, w)
    | None =>
        if create
        then Some (Some path,
                   World (<[path := VNone]> (tree w)) (writes w) (stdout w))
        else Some (None, w)
    end.

(** Modelled from the spec: a leaf read as a number, and as a string;
    an untyped leaf reads as zero and as the empty string. *)
Definition as_double (v : value) : R :=
  match v with
  | VDouble x => x
  | VFloat x => x
  | VString s => strtod env s
  | VNone => 0
  end.

Definition as_string (v : value) : string :=
  match v with
  | VString s => s
  | VDouble x => dtostr env x
  | VFloat x => dtostr env x
  | VNone => ""
  end.

Definition read_double (t : gmap string value) (n : node) : R :=
  as_double (leaf_value t n).

Definition read_string (t : gmap string value) (n : node) : string :=
  as_string (leaf_value t n).

(** Modelled from the spec: [p->getDoubleValue()]. *)
Definition getDoubleValue (p : option node) : M R :=
  match p with
  | Some n => fun w => Some (read_double (tree w) n, w)
  | None => crash
  end.

(** Modelled from the spec: [p->getStringValue()]. *)
Definition getStringValue (p : option node) : M string :=
  match p with
  | Some n => fun w => Some (read_string (tree w) n, w)
  | None => crash
  end.

Definition store (n : node) (v : value) : M bool :=
  fun w => Some (true, World (<[n := v]> (tree w))
                             (writes w ++ [(n, v)])%list (stdout w)).

(** Modelled from the spec: [p->setDoubleValue( x )]. *)
Definition setDoubleValue (p : option node) (x : R) : M bool :=
  match p with Some n => store n (VDouble x) | None => crash end.

(** Modelled from the spec: [p->setFloatValue( x )]; its parameter is a
    [float], so the [double] it is called with is narrowed. *)
Definition setFloatValue (p : option node) (x : R) : M bool :=
  match p with Some n => store n (VFloat (narrow x)) | None => crash end.

(** Modelled from the spec: [p->setStringValue( s )]. *)
Definition setStringValue (p : option node) (s : string) : M bool :=
  match p with Some n => store n (VString s) | None => crash end.

Definition printf (s : string) : M unit :=
  fun w => Some (tt, World (tree w) (writes w) (stdout w ++ [s])%list).

End PropertyTree.

(** Modelled from the spec: the constants of include/globaldefs.h, which is
    not part of the sources ("converted to degrees", "ω_A = √2 · π /
    L1_period"). *)
Definition SGD_PI : R := PI.
Definition SG_DEGREES_TO_RADIANS : R := PI / 180.
Definition SG_RADIANS_TO_DEGREES : R := 180 / PI.

(** ** The arithmetic of one tick

    The blocks of [AuraCircleMgr::update], each as a function of the locals
    it reads. *)

(** [direction]: 1.0, or -1.0 when the string is "right". *)
Definition direction_of (direction_str : string) : R :=
  if String.eqb direction_str "right" then -1 else 1.

(** The two tests that follow every course computation:
    [if ( c > 360.0 ) { c -= 360.0; }  if ( c < 0.0 ) { c += 360.0; }]. *)
Definition wrap_course (c : R) : R :=
  let c1 := if Rgt_dec c 360 then c - 360 else c in
  if Rlt_dec c1 0 then c1 + 360 else c1.

(** [ideal_crs]: the ground course at the ideal radius. *)
Definition ideal_crs (course_deg direction : R) : R :=
  wrap_course (course_deg + direction * 90).

(** [radius_m], after the "(in)sanity check". *)
Definition clamp_radius (radius : R) : R :=
  if Rlt_dec radius 10 then 10 else radius.

(** [target_crs]: the ideal course, bent by the radial error. *)
Definition target_crs (ideal direction dist_m radius_m : R) : R :=
  if Rlt_dec dist_m radius_m then
    let offset_deg := direction * 90 * (1 - dist_m / radius_m) in
    wrap_course (ideal + offset_deg)
  else if Rgt_dec dist_m radius_m then
    let offset_dist := dist_m - radius_m in
    let offset_dist :=
      if Rgt_dec offset_dist radius_m then radius_m else offset_dist in
    let offset_deg := direction * 90 * offset_dist / radius_m in
    wrap_course (ideal - offset_deg)
  else ideal.

(** [course_error]: ground track minus target course, wrapped once. *)
Definition course_error (groundtrack target : R) : R :=
  let e := groundtrack - target in
  let e1 := if Rlt_dec e (-180) then e + 360 else e in
  if Rgt_dec e1 180 then e1 - 360 else e1.

Definition sqrt_of_2 : R := 1.41421356237309504880.

Definition gravity : R := 9.81.

(** [accel]: the L1 response to the course error, for an L1 period other
    than 0 ([track_accel_ieee] says what the source has at 0). *)
Definition track_accel (L1_period gs_mps error : R) : R :=
  let omegaA := sqrt_of_2 * SGD_PI / L1_period in
  let VomegaA := gs_mps * omegaA in
  2 * sin (error * SG_DEGREES_TO_RADIANS) * VomegaA.

(** What the division by the L1 period and the two products of [accel]
    give in the arithmetic of the source, where a division by 0 is an
    infinity (of a sign that is not followed here) or not a number, and 0
    times an infinity is not a number. *)
Inductive ieee :=
| Finite (x : R)
| Infinite
| NotANumber.

Definition ieee_div (a b : R) : ieee :=
  if Req_dec_T b 0
  then if Req_dec_T a 0 then NotANumber else Infinite
  else Finite (a / b).

Definition ieee_mul (a : R) (y : ieee) : ieee :=
  match y with
  | Finite b => Finite (a * b)
  | Infinite => if Req_dec_T a 0 then NotANumber else Infinite
  | NotANumber => NotANumber
  end.

Definition track_accel_ieee (L1_period gs_mps error : R) : ieee :=
  let omegaA := ieee_div (sqrt_of_2 * SGD_PI) L1_period in
  let VomegaA := ieee_mul gs_mps omegaA in
  ieee_mul (2 * sin (error * SG_DEGREES_TO_RADIANS)) VomegaA.

(** [ideal_accel]: the acceleration that holds the circle. *)
Definition ideal_accel (direction gs_mps radius_m : R) : R :=
  direction * gs_mps * gs_mps / radius_m.

(** [target_bank_deg], before the bank limit is applied. *)
Definition bank_of_accel (total_accel : R) : R :=
  let target_bank := - atan (total_accel / gravity) in
  target_bank * SG_RADIANS_TO_DEGREES.

(** The two tests against [bank_limit_deg]. *)
Definition limit_bank (target_bank_deg bank_limit_deg : R) : R :=
  let b1 := if Rlt_dec target_bank_deg (- bank_limit_deg)
            then - bank_limit_deg else target_bank_deg in
  if Rgt_dec b1 bank_limit_deg then bank_limit_deg else b1.

(** The [0.1] of the source, where a tick tests against it: the [double]
    nearest to one tenth, 3602879701896397 / 2^55.  It lies above one
    tenth with no [double] between the two, so a [double] is less than it
    exactly when it is less than one tenth (the tests of [bind]); but it is
    not greater than itself. *)
Definition one_tenth : R := 3602879701896397 / 36028797018963968.

(** [wp_eta_sec]'s value, before it is narrowed. *)
Definition eta_sec (dist_m gs_mps : R) : R :=
  if Rgt_dec gs_mps one_tenth then dist_m / gs_mps else 0.

(** ** The manager object *)

(** The data members of [AuraCircleMgr], in the order of the constructor's
    initialiser list.  A handle is [None] while it is NULL. *)
Record AuraCircleMgr := Mgr {
  config_path : string;
  _direction : string;
  _radius_m : R;
  _target_agl_ft : R;
  _target_speed_kt : R;

  lon_node : option node;
  lat_node : option node;
  alt_agl_node : option node;
  true_heading_node : option node;
  groundtrack_node : option node;
  groundspeed_node : option node;
  coord_lon_node : option node;
  coord_lat_node : option node;

  direction_node : option node;
  radius_node : option node;
  bank_limit_node : option node;
  L1_period_node : option node;
  override_agl_node : option node;
  override_speed_node : option node;

  exit_agl_node : option node;
  exit_heading_node : option node;
  fcs_mode_node : option node;
  ap_speed_node : option node;
  ap_agl_node : option node;
  ap_roll_node : option node;
  target_course_deg : option node;
  wp_dist_m : option node;
  wp_eta_sec : option node;

  saved_fcs_mode : string;
  saved_agl_ft : R;
  saved_speed_kt : R;
  saved_direction : string;
  saved_radius_m : R
}.

(** The five members the constructor's loop assigns. *)
Record task_params := Params {
  p_config_path : string;
  p_direction : string;
  p_radius_m : R;
  p_target_agl_ft : R;
  p_target_speed_kt : R
}.

(** The object at the end of the constructor's initialiser list, with the
    five task parameters as given: every handle is NULL. *)
Definition unbound (p : task_params) : AuraCircleMgr :=
  {| config_path := p_config_path p;
     _direction := p_direction p;
     _radius_m := p_radius_m p;
     _target_agl_ft := p_target_agl_ft p;
     _target_speed_kt := p_target_speed_kt p;
     lon_node := None; lat_node := None; alt_agl_node := None;
     true_heading_node := None; groundtrack_node := None;
     groundspeed_node := None; coord_lon_node := None;
     coord_lat_node := None;
     direction_node := None; radius_node := None;
     bank_limit_node := None; L1_period_node := None;
     override_agl_node := None; override_speed_node := None;
     exit_agl_node := None; exit_heading_node := None;
     fcs_mode_node := None; ap_speed_node := None;
     ap_agl_node := None; ap_roll_node := None;
     target_course_deg := None; wp_dist_m := None;
     wp_eta_sec := None;
     saved_fcs_mode := ""; saved_agl_ft := 0; saved_speed_kt := 0;
     saved_direction := ""; saved_radius_m := 0 |}.

Definition newline : string := String (ascii_of_nat 10) "".

(** [s.c_str()] read as a C string: the characters before the first NUL.
    The strings that the constructor and [bind] pass on come from the
    property tree, which hands out C strings; they hold no NUL and are
    taken whole.  The argument of [set_direction] comes from the caller. *)
Fixpoint c_str (s : string) : string :=
  match s with
  | EmptyString => EmptyString
  | String c rest =>
      if Ascii.eqb c Ascii.zero then EmptyString else String c (c_str rest)
  end.

Section Manager.
Variable env : Env.

(** One turn of the constructor's loop, on the child [(name, v)]. *)
Definition ctor_child (p : task_params) (child : string * value)
  : M task_params :=
  let '(name, v) := child in
  if String.eqb name "config" then
    ret (Params (as_string env v) (p_direction p) (p_radius_m p)
                (p_target_agl_ft p) (p_target_speed_kt p))
  else if String.eqb name "direction" then
    ret (Params (p_config_path p) (as_string env v) (p_radius_m p)
                (p_target_agl_ft p) (p_target_speed_kt p))
  else if String.eqb name "radius-m" then
    ret (Params (p_config_path p) (p_direction p) (as_double env v)
                (p_target_agl_ft p) (p_target_speed_kt p))
  else if String.eqb name "altitude-agl-ft" then
    ret (Params (p_config_path p) (p_direction p) (p_radius_m p)
                (as_double env v) (p_target_speed_kt p))
  else if String.eqb name "speed-kt" then
    ret (Params (p_config_path p) (p_direction p) (p_radius_m p)
                (p_target_agl_ft p) (as_double env v))
  else
    printf ("Unknown circle task parameter: " +:+ name +:+ newline);;;
    ret p.

Fixpoint ctor_loop (children : list (string * value)) (p : task_params)
  : M task_params :=
  match children with
  | [] => ret p
  | child :: rest => p' <- ctor_child p child;; ctor_loop rest p'
  end.

(** [AuraCircleMgr::AuraCircleMgr( branch )]; the branch is given by its
    children, in order. *)
Definition AuraCircleMgr_new (branch : list (string * value))
  : M AuraCircleMgr :=
  p <- ctor_loop branch (Params "" "left" 100 0 0);;
  ret (unbound p).

(** [AuraCircleMgr::bind()].  It returns its result together with the
    object, whose handles it assigns. *)
Definition bind (this : AuraCircleMgr) : M (bool * AuraCircleMgr) :=
  lon <- fgGetNode "/position/longitude-deg" true;;
  lat <- fgGetNode "/position/latitude-deg" true;;
  alt_agl <- fgGetNode "/position/altitude-agl-ft" true;;
  true_heading <- fgGetNode "/orientation/heading-deg" true;;
  groundtrack <- fgGetNode "/orientation/groundtrack-deg" true;;
  groundspeed <- fgGetNode "/velocity/groundspeed-ms" true;;

  coord_lon <- fgGetNode ((config_path this +:+ "/") +:+ "longitude-deg") true;;
  coord_lat <- fgGetNode ((config_path this +:+ "/") +:+ "latitude-deg") true;;
  direction <- fgGetNode ((config_path this +:+ "/") +:+ "direction") true;;
  radius <- fgGetNode ((config_path this +:+ "/") +:+ "radius-m") true;;

  override_agl <-
    fgGetNode ((config_path this +:+ "/") +:+ "altitude-agl-ft") true;;
  (if Rgt_dec (_target_agl_ft this) 0
   then setDoubleValue override_agl (_target_agl_ft this)
   else ret true);;;

  override_speed <-
    fgGetNode ((config_path this +:+ "/") +:+ "speed-kt") true;;
  (if Rgt_dec (_target_speed_kt this) 0
   then setDoubleValue override_speed (_target_speed_kt this)
   else ret true);;;

  exit_agl <- fgGetNode ((config_path this +:+ "/") +:+ "exit-agl-ft") true;;
  exit_heading <-
    fgGetNode ((config_path this +:+ "/") +:+ "exit-heading-deg") true;;

  fcs_mode <- fgGetNode "/config/fcs/mode" true;;

  bank_limit <-
    fgGetNode "/config/fcs/autopilot/L1-controller/bank-limit-deg" true;;
  L1_period <- fgGetNode "/config/fcs/autopilot/L1-controller/period" true;;
  bl <- getDoubleValue env bank_limit;;
  (if Rlt_dec bl 0.1 then setDoubleValue bank_limit 20 else ret true);;;
  l1 <- getDoubleValue env L1_period;;
  (if Rlt_dec l1 0.1 then setDoubleValue L1_period 25 else ret true);;;

  ap_speed <- fgGetNode "/autopilot/settings/target-speed-kt" true;;
  ap_agl <- fgGetNode "/autopilot/settings/target-agl-ft" true;;
  ap_roll <- fgGetNode "/autopilot/settings/target-roll-deg" true;;
  target_course <-
    fgGetNode "/autopilot/settings/target-groundtrack-deg" true;;

  wp_dist <- fgGetNode "/mission/route/wp-dist-m" true;;
  wp_eta <- fgGetNode "/mission/route/wp-eta-sec" true;;

  ret (true,
       {| config_path := config_path this;
          _direction := _direction this;
          _radius_m := _radius_m this;
          _target_agl_ft := _target_agl_ft this;
          _target_speed_kt := _target_speed_kt this;
          lon_node := lon; lat_node := lat; alt_agl_node := alt_agl;
          true_heading_node := true_heading;
          groundtrack_node := groundtrack;
          groundspeed_node := groundspeed;
          coord_lon_node := coord_lon; coord_lat_node := coord_lat;
          direction_node := direction; radius_node := radius;
          bank_limit_node := bank_limit; L1_period_node := L1_period;
          override_agl_node := override_agl;
          override_speed_node := override_speed;
          exit_agl_node := exit_agl; exit_heading_node := exit_heading;
          fcs_mode_node := fcs_mode; ap_speed_node := ap_speed;
          ap_agl_node := ap_agl; ap_roll_node := ap_roll;
          target_course_deg := target_course; wp_dist_m := wp_dist;
          wp_eta_sec := wp_eta;
          saved_fcs_mode := saved_fcs_mode this;
          saved_agl_ft := saved_agl_ft this;
          saved_speed_kt := saved_speed_kt this;
          saved_direction := saved_direction this;
          saved_radius_m := saved_radius_m this |}).


(** [AuraCircleMgr::update()].  The block under [#if 0] is not compiled
    and not modelled. *)
Definition update (this : AuraCircleMgr) : M bool :=
  direction_str <- getStringValue env (direction_node this);;
  let direction := direction_of direction_str in

  coord_lon <- getDoubleValue env (coord_lon_node this);;
  coord_lat <- getDoubleValue env (coord_lat_node this);;
  let target := WayPoint coord_lon coord_lat in

  lon <- getDoubleValue env (lon_node this);;
  lat <- getDoubleValue env (lat_node this);;
  let '(course_deg, dist_m) := CourseAndDistance env target lon lat 0 in

  let ideal := ideal_crs course_deg direction in

  radius <- getDoubleValue env (radius_node this);;
  let radius_m := clamp_radius radius in

  let target_crs := target_crs ideal direction dist_m radius_m in
  setDoubleValue (target_course_deg this) target_crs;;;

  L1_period <- getDoubleValue env (L1_period_node this);;
  gs_mps <- getDoubleValue env (groundspeed_node this);;
  groundtrack <- getDoubleValue env (groundtrack_node this);;
  let error := course_error groundtrack target_crs in
  let accel := track_accel L1_period gs_mps error in
  let total_accel := ideal_accel direction gs_mps radius_m + accel in
  let target_bank_deg := bank_of_accel total_accel in

  bank_limit_deg <- getDoubleValue env (bank_limit_node this);;
  setDoubleValue (ap_roll_node this)
                 (limit_bank target_bank_deg bank_limit_deg);;;

  setFloatValue (wp_dist_m this) dist_m;;;
  (if Rgt_dec gs_mps one_tenth
   then setFloatValue (wp_eta_sec this) (dist_m / gs_mps)
   else setFloatValue (wp_eta_sec this) 0);;;

  ret true.

(** [AuraCircleMgr::get_center()]. *)
Definition get_center (this : AuraCircleMgr) : M SGWayPoint :=
  coord_lon <- getDoubleValue env (coord_lon_node this);;
  coord_lat <- getDoubleValue env (coord_lat_node this);;
  ret (WayPoint coord_lon coord_lat).

(** [AuraCircleMgr::set_direction( direction )]; it passes
    [direction.c_str()]. *)
Definition set_direction (this : AuraCircleMgr) (direction : string)
  : M unit :=
  setStringValue (direction_node this) (c_str direction);;; ret tt.

(** [AuraCircleMgr::set_radius( radius_m )]. *)
Definition set_radius (this : AuraCircleMgr) (radius_m : R) : M unit :=
  setDoubleValue (radius_node this) radius_m;;; ret tt.

End Manager.

(** ** A bound manager and the locals of a tick *)

(** The leaf [name] under the manager's configuration path, spelled as
    [bind] builds it: [prop = config_path + "/"; prop += name]. *)
Definition config_leaf (this : AuraCircleMgr) (name : string) : node :=
  (config_path this +:+ "/") +:+ name.

(** The object as [bind] leaves it: every handle points to its leaf. *)
Definition bound (this : AuraCircleMgr) : AuraCircleMgr :=
  {| config_path := config_path this;
     _direction := _direction this;
     _radius_m := _radius_m this;
     _target_agl_ft := _target_agl_ft this;
     _target_speed_kt := _target_speed_kt this;
     lon_node := Some "/position/longitude-deg";
     lat_node := Some "/position/latitude-deg";
     alt_agl_node := Some "/position/altitude-agl-ft";
     true_heading_node := Some "/orientation/heading-deg";
     groundtrack_node := Some "/orientation/groundtrack-deg";
     groundspeed_node := Some "/velocity/groundspeed-ms";
     coord_lon_node := Some (config_leaf this "longitude-deg");
     coord_lat_node := Some (config_leaf this "latitude-deg");
     direction_node := Some (config_leaf this "direction");
     radius_node := Some (config_leaf this "radius-m");
     bank_limit_node :=
       Some "/config/fcs/autopilot/L1-controller/bank-limit-deg";
     L1_period_node := Some "/config/fcs/autopilot/L1-controller/period";
     override_agl_node := Some (config_leaf this "altitude-agl-ft");
     override_speed_node := Some (config_leaf this "speed-kt");
     exit_agl_node := Some (config_leaf this "exit-agl-ft");
     exit_heading_node := Some (config_leaf this "exit-heading-deg");
     fcs_mode_node := Some "/config/fcs/mode";
     ap_speed_node := Some "/autopilot/settings/target-speed-kt";
     ap_agl_node := Some "/autopilot/settings/target-agl-ft";
     ap_roll_node := Some "/autopilot/settings/target-roll-deg";
     target_course_deg := Some "/autopilot/settings/target-groundtrack-deg";
     wp_dist_m := Some "/mission/route/wp-dist-m";
     wp_eta_sec := Some "/mission/route/wp-eta-sec";
     saved_fcs_mode := saved_fcs_mode this;
     saved_agl_ft := saved_agl_ft this;
     saved_speed_kt := saved_speed_kt this;
     saved_direction := saved_direction this;
     saved_radius_m := saved_radius_m this |}.

(** The values the locals of [update] take in one tick. *)
Record tick := Tick {
  t_direction : R;
  t_course_deg : R;
  t_dist_m : R;
  t_ideal_crs : R;
  t_radius_m : R;
  t_target_crs : R;
  t_L1_period : R;
  t_gs_mps : R;
  t_groundtrack : R;
  t_course_error : R;
  t_accel : R;
  t_ideal_accel : R;
  t_bank_limit_deg : R;
  t_target_bank_deg : R
}.

Section Ticks.
Variable env : Env.

(** The locals of a tick of a bound manager, from the tree it starts
    in. *)
Definition locals (this : AuraCircleMgr) (t : gmap string value) : tick :=
  let direction :=
    direction_of (read_string env t (config_leaf this "direction")) in
  let target :=
    WayPoint (read_double env t (config_leaf this "longitude-deg"))
             (read_double env t (config_leaf this "latitude-deg")) in
  let cd := CourseAndDistance env target
              (read_double env t "/position/longitude-deg")
              (read_double env t "/position/latitude-deg") 0 in
  let ideal := ideal_crs (fst cd) direction in
  let radius_m :=
    clamp_radius (read_double env t (config_leaf this "radius-m")) in
  let crs := target_crs ideal direction (snd cd) radius_m in
  let L1_period :=
    read_double env t "/config/fcs/autopilot/L1-controller/period" in
  let gs_mps := read_double env t "/velocity/groundspeed-ms" in
  let groundtrack := read_double env t "/orientation/groundtrack-deg" in
  let error := course_error groundtrack crs in
  let accel := track_accel L1_period gs_mps error in
  let ideal_acc := ideal_accel direction gs_mps radius_m in
  let bank_limit_deg :=
    read_double env t
      "/config/fcs/autopilot/L1-controller/bank-limit-deg" in
  {| t_direction := direction;
     t_course_deg := fst cd;
     t_dist_m := snd cd;
     t_ideal_crs := ideal;
     t_radius_m := radius_m;
     t_target_crs := crs;
     t_L1_period := L1_period;
     t_gs_mps := gs_mps;
     t_groundtrack := groundtrack;
     t_course_error := error;
     t_accel := accel;
     t_ideal_accel := ideal_acc;
     t_bank_limit_deg := bank_limit_deg;
     t_target_bank_deg :=
       limit_bank (bank_of_accel (ideal_acc + accel)) bank_limit_deg |}.

(** The [setDoubleValue] calls of [bind], in order: the two overrides
    and the two defaults, each only when its test passes. *)
Definition bind_writes (this : AuraCircleMgr) (t : gmap string value)
  : list (node * value) :=
  ((if Rgt_dec (_target_agl_ft this) 0
    then [(config_leaf this "altitude-agl-ft",
           VDouble (_target_agl_ft this))]
    else [])
   ++ (if Rgt_dec (_target_speed_kt this) 0
       then [(config_leaf this "speed-kt",
              VDouble (_target_speed_kt this))]
       else [])
   ++ (if Rlt_dec
            (read_double env t
               "/config/fcs/autopilot/L1-controller/bank-limit-deg") 0.1
       then [("/config/fcs/autopilot/L1-controller/bank-limit-deg",
              VDouble 20)]
       else [])
   ++ (if Rlt_dec
            (read_double env t
               "/config/fcs/autopilot/L1-controller/period") 0.1
       then [("/config/fcs/autopilot/L1-controller/period", VDouble 25)]
       else []))%list.

(** The tree after a list of writes. *)
Definition written (l : list (node * value)) (t : gmap string value)
  : gmap string value :=
  fold_left (fun t nv => <[fst nv := snd nv]> t) l t.

(** The four [set...Value] calls of a tick, in order. *)
Definition tick_writes (l : tick) : list (node * value) :=
  [ ("/autopilot/settings/target-groundtrack-deg", VDouble (t_target_crs l));
    ("/autopilot/settings/target-roll-deg", VDouble (t_target_bank_deg l));
    ("/mission/route/wp-dist-m", VFloat (narrow (t_dist_m l)));
    ("/mission/route/wp-eta-sec",
     VFloat (narrow (eta_sec (t_dist_m l) (t_gs_mps l)))) ].

Definition publish (l : tick) (w : world) : world :=
  World (written (tick_writes l) (tree w))
        (writes w ++ tick_writes l)%list
        (stdout w).

(** [n] ticks in a row; the result of the last one, and the world. *)
Fixpoint run_ticks (n : nat) (this : AuraCircleMgr) : M bool :=
  match n with
  | O => ret true
  | S k => update env this;;; run_ticks k this
  end.

End Ticks.

(** The leaves a tick writes, in the order it writes them. *)
Definition outputs : list node :=
  [ "/autopilot/settings/target-groundtrack-deg";
    "/autopilot/settings/target-roll-deg";
    "/mission/route/wp-dist-m";
    "/mission/route/wp-eta-sec" ].

(** The tree after a leaf has been created if it was missing. *)
Definition ensure (p : node) (t : gmap string value) : gmap string value :=
  match t !! p with Some _ => t | None => <[p := VNone]> t end.

(** The world with one leaf overwritten by another component. *)
Definition with_leaf (p : node) (v : value) (w : world) : world :=
  World (<[p := v]> (tree w)) (writes w) (stdout w).

(** How often the leaf [p] occurs in a record of writes. *)
Definition count_writes (p : node) (l : list (node * value)) : nat :=
  List.length (List.filter (fun nv => String.eqb (fst nv) p) l).

(** The characters of [s] after the first [n]. *)
Fixpoint drop_chars (n : nat) (s : string) : string :=
  match n, s with
  | O, _ => s
  | S k, String _ s' => drop_chars k s'
  | S _, EmptyString => EmptyString
  end.

Definition ends_with (suffix s : string) : bool :=
  String.eqb
    (drop_chars (String.length s - String.length suffix) s) suffix.

(** ** Sample surroundings

    A geodesic helper that answers with a fixed bearing and distance (the
    vehicle stands still), a tree with nothing in it, and a task bound
    under /task/circle. *)

Definition fixed_env (course_deg dist_m : R) : Env :=
  {| CourseAndDistance := fun _ _ _ _ => (course_deg, dist_m);
     strtod := fun _ => 0;
     dtostr := fun _ => "" |}.

Definition empty_world : world := World ∅ [] [].

Definition sample_task (direction : string) (agl_ft speed_kt : R)
  : AuraCircleMgr :=
  unbound (Params "/task/circle" direction 100 agl_ft speed_kt).

(** The task of the samples: circle under /task/circle, no overrides. *)
Definition loiter : AuraCircleMgr := sample_task "left" 0 0.

(** The same task with an altitude override of 200 ft and a speed override
    of 30 kt. *)
Definition loiter_overrides : AuraCircleMgr := sample_task "left" 200 30.

(** A tree that holds the circle's direction and radius, the vehicle's
    ground track and ground speed, and the two tuning values. *)
Definition sample_world (direction : string)
    (radius_m groundtrack gs_mps L1_period bank_limit_deg : R) : world :=
  with_leaf (config_leaf loiter "direction") (VString direction)
    (with_leaf (config_leaf loiter "radius-m") (VDouble radius_m)
       (with_leaf "/orientation/groundtrack-deg" (VDouble groundtrack)
          (with_leaf "/velocity/groundspeed-ms" (VDouble gs_mps)
             (with_leaf "/config/fcs/autopilot/L1-controller/period"
                (VDouble L1_period)
                (with_leaf
                   "/config/fcs/autopilot/L1-controller/bank-limit-deg"
                   (VDouble bank_limit_deg) empty_world))))).

(** The steady state of the samples, with an L1 period of 0: a left circle
    of 150 m, the vehicle 150 m from the centre that lies due south, flying
    west at 25 m/s. *)
Definition zero_period_tick : tick :=
  locals (fixed_env 180 150) loiter
         (tree (sample_world "left" 150 270 25 0 20)).

(** Two courses that are the same direction up to [tol] degrees: they
    differ by at most [tol], or by a full turn and at most [tol]. *)
Definition same_course (tol a b : R) : Prop :=
  Rabs (a - b) <= tol
  \/ Rabs (a - (b + 360)) <= tol
  \/ Rabs (a - (b - 360)) <= tol.

(** The bank of the steady-state law, in the words of the specification:
    -atan(d V^2 / (R g)), converted to degrees. *)
Definition steady_bank_deg (direction V radius : R) : R :=
  - atan (direction * V² / (radius * 9.81)) * SG_RADIANS_TO_DEGREES.

(** ** More names for what the manager does *)

(** The parameter names the constructor's loop knows. *)
Definition known_parameter (name : string) : bool :=
  String.eqb name "config" || String.eqb name "direction"
  || String.eqb name "radius-m" || String.eqb name "altitude-agl-ft"
  || String.eqb name "speed-kt".

(** What the constructor prints for a branch: one line for every child whose
    name it does not know, in the order of the children. *)
Definition ctor_reports (branch : list (string * value)) : list string :=
  map (fun c => "Unknown circle task parameter: " +:+ fst c +:+ newline)
      (List.filter (fun c => negb (known_parameter (fst c))) branch).

(** The value of the last child of the branch that has the given name. *)
Fixpoint last_named (name : string) (branch : list (string * value))
  : option value :=
  match branch with
  | [] => None
  | (n, v) :: rest =>
      match last_named name rest with
      | Some v' => Some v'
      | None => if String.eqb n name then Some v else None
      end
  end.

(** One step of [bind] on the tree: a leaf looked up with [create] set, or
    a leaf written. *)
Inductive tree_op :=
| Lookup (p : string)
| Set_ (p : string) (v : value).

Definition op_leaf (o : tree_op) : string :=
  match o with Lookup p => p | Set_ p _ => p end.

Definition run_op (t : gmap string value) (o : tree_op)
  : gmap string value :=
  match o with
  | Lookup p => ensure p t
  | Set_ p v => <[p := v]> t
  end.

Definition run_ops (ops : list tree_op) (t : gmap string value)
  : gmap string value :=
  fold_left run_op ops t.

(** The writes among a list of steps. *)
Fixpoint ops_writes (ops : list tree_op) : list (string * value) :=
  match ops with
  | [] => []
  | Lookup _ :: rest => ops_writes rest
  | Set_ p v :: rest => (p, v) :: ops_writes rest
  end.

Section Steps.
Variable env : Env.

(** The steps of [bind] on the tree, in the order of the source. *)
Definition bind_ops (this : AuraCircleMgr) (t : gmap string value)
  : list tree_op :=
  ([ Lookup "/position/longitude-deg";
     Lookup "/position/latitude-deg";
     Lookup "/position/altitude-agl-ft";
     Lookup "/orientation/heading-deg";
     Lookup "/orientation/groundtrack-deg";
     Lookup "/velocity/groundspeed-ms";
     Lookup (config_leaf this "longitude-deg");
     Lookup (config_leaf this "latitude-deg");
     Lookup (config_leaf this "direction");
     Lookup (config_leaf this "radius-m");
     Lookup (config_leaf this "altitude-agl-ft") ]
   ++ (if Rgt_dec (_target_agl_ft this) 0
       then [Set_ (config_leaf this "altitude-agl-ft")
                  (VDouble (_target_agl_ft this))]
       else [])
   ++ [ Lookup (config_leaf this "speed-kt") ]
   ++ (if Rgt_dec (_target_speed_kt this) 0
       then [Set_ (config_leaf this "speed-kt")
                  (VDouble (_target_speed_kt this))]
       else [])
   ++ [ Lookup (config_leaf this "exit-agl-ft");
        Lookup (config_leaf this "exit-heading-deg");
        Lookup "/config/fcs/mode";
        Lookup "/config/fcs/autopilot/L1-controller/bank-limit-deg";
        Lookup "/config/fcs/autopilot/L1-controller/period" ]
   ++ (if Rlt_dec
            (read_double env t
               "/config/fcs/autopilot/L1-controller/bank-limit-deg") 0.1
       then [Set_ "/config/fcs/autopilot/L1-controller/bank-limit-deg"
                  (VDouble 20)]
       else [])
   ++ (if Rlt_dec
            (read_double env t
               "/config/fcs/autopilot/L1-controller/period") 0.1
       then [Set_ "/config/fcs/autopilot/L1-controller/period" (VDouble 25)]
       else [])
   ++ [ Lookup "/autopilot/settings/target-speed-kt";
        Lookup "/autopilot/settings/target-agl-ft";
        Lookup "/autopilot/settings/target-roll-deg";
        Lookup "/autopilot/settings/target-groundtrack-deg";
        Lookup "/mission/route/wp-dist-m";
        Lookup "/mission/route/wp-eta-sec" ])%list.

(** The leaves a tick reads. *)
Definition inputs (this : AuraCircleMgr) : list string :=
  [ config_leaf this "direction";
    config_leaf this "longitude-deg";
    config_leaf this "latitude-deg";
    "/position/longitude-deg";
    "/position/latitude-deg";
    config_leaf this "radius-m";
    "/config/fcs/autopilot/L1-controller/period";
    "/velocity/groundspeed-ms";
    "/orientation/groundtrack-deg";
    "/config/fcs/autopilot/L1-controller/bank-limit-deg" ].


End Steps.

(** A parameter taken from a child when there is one, and a default. *)
Definition pick {A} (conv : value -> A) (o : option value) (dflt : A) : A :=
  match o with Some v => conv v | None => dflt end.

(** The leaves [bind] binds a handle to. *)
Definition bound_leaves (this : AuraCircleMgr) : list string :=
  [ "/position/longitude-deg";
    "/position/latitude-deg";
    "/position/altitude-agl-ft";
    "/orientation/heading-deg";
    "/orientation/groundtrack-deg";
    "/velocity/groundspeed-ms";
    config_leaf this "longitude-deg";
    config_leaf this "latitude-deg";
    config_leaf this "direction";
    config_leaf this "radius-m";
    config_leaf this "altitude-agl-ft";
    config_leaf this "speed-kt";
    config_leaf this "exit-agl-ft";
    config_leaf this "exit-heading-deg";
    "/config/fcs/mode";
    "/config/fcs/autopilot/L1-controller/bank-limit-deg";
    "/config/fcs/autopilot/L1-controller/period";
    "/autopilot/settings/target-speed-kt";
    "/autopilot/settings/target-agl-ft";
    "/autopilot/settings/target-roll-deg";
    "/autopilot/settings/target-groundtrack-deg";
    "/mission/route/wp-dist-m";
    "/mission/route/wp-eta-sec" ].

(** The leaves [bind] may write. *)
Definition bind_targets (this : AuraCircleMgr) : list string :=
  [ config_leaf this "altitude-agl-ft";
    config_leaf this "speed-kt";
    "/config/fcs/autopilot/L1-controller/bank-limit-deg";
    "/config/fcs/autopilot/L1-controller/period" ].

(** ** Facts on narrowing *)

Lemma powerRZ_2_pos e : 0 < powerRZ 2 e.
Proof. apply powerRZ_lt. lra. Qed.

Lemma powerRZ_2_split a b : powerRZ 2 (a + b) = powerRZ 2 a * powerRZ 2 b.
Proof. apply powerRZ_add. lra. Qed.

Lemma powerRZ_2_mono a b : (a <= b)%Z -> powerRZ 2 a <= powerRZ 2 b.
Proof.
  intros H. replace b with (a + (b - a))%Z by lia.
  rewrite powerRZ_2_split.
  assert (1 <= powerRZ 2 (b - a)).
  { destruct (b - a)%Z as [|p|p] eqn:E; [simpl; lra | | lia].
    simpl. apply pow_R1_Rle. lra. }
  pose proof (powerRZ_2_pos a). nra.
Qed.

Lemma nearest_even_close r : Rabs (IZR (nearest_even r) - r) <= 1 / 2.
Proof.
  unfold nearest_even. pose proof (Zfloor_bound r) as [H1 H2].
  destruct (Rlt_dec (r - IZR (Zfloor r)) (1 / 2)).
  - apply Rabs_le. lra.
  - destruct (Rgt_dec (r - IZR (Zfloor r)) (1 / 2)).
    + rewrite plus_IZR. apply Rabs_le. lra.
    + destruct (Z.even (Zfloor r)).
      * apply Rabs_le. lra.
      * rewrite plus_IZR. apply Rabs_le. lra.
Qed.

Lemma nearest_even_int z : nearest_even (IZR z) = z.
Proof.
  unfold nearest_even. rewrite ZfloorZ.
  destruct (Rlt_dec (IZR z - IZR z) (1 / 2)); [reflexivity | lra].
Qed.

Lemma nearest_even_nonneg r : 0 <= r -> (0 <= nearest_even r)%Z.
Proof.
  intros H. unfold nearest_even.
  assert (0 <= Zfloor r)%Z by (apply Zfloor_lub; simpl; lra).
  destruct (Rlt_dec _ _); [assumption |].
  destruct (Rgt_dec _ _); [lia |].
  destruct (Z.even _); lia.
Qed.

(** An integer less than half a unit away is the nearest one. *)
Lemma nearest_even_unique r m :
  Rabs (r - IZR m) < 1 / 2 -> nearest_even r = m.
Proof.
  intros H. apply Rabs_def2 in H. destruct H as [Hlt Hgt].
  pose proof (Zfloor_bound r) as [H1 H2].
  assert (Hm : (Zfloor r <= m <= Zfloor r + 1)%Z).
  { split.
    - apply Z.lt_succ_r, lt_IZR. rewrite succ_IZR. lra.
    - apply Z.lt_succ_r, lt_IZR. rewrite succ_IZR, plus_IZR. lra. }
  unfold nearest_even.
  destruct (Rlt_dec _ _) as [Hd|Hd].
  - destruct (Z.eq_dec m (Zfloor r)) as [E|E]; [by rewrite E |].
    assert (E' : m = (Zfloor r + 1)%Z) by lia.
    rewrite E', plus_IZR in Hgt. lra.
  - destruct (Rgt_dec _ _) as [Hg|Hg].
    + destruct (Z.eq_dec m (Zfloor r + 1)%Z) as [E|E]; [by rewrite E |].
      assert (E' : m = Zfloor r) by lia.
      rewrite E' in Hlt. lra.
    + exfalso.
      destruct (Z.eq_dec m (Zfloor r)) as [E|E]; [rewrite E in Hlt; lra |].
      assert (E' : m = (Zfloor r + 1)%Z) by lia.
      rewrite E', plus_IZR in Hgt. lra.
Qed.

Lemma float_exponent_floor fuel : forall e a,
  (e <= float_exponent fuel e a)%Z.
Proof.
  induction fuel as [|k IH]; intros e a; simpl; [lia |].
  destruct (Rlt_dec a (powerRZ 2 (e + 1))); [lia |].
  specialize (IH (e + 1)%Z a). lia.
Qed.

(** Above the first exponent, the magnitude is at least 2^e. *)
Lemma float_exponent_le fuel : forall e a,
  let e' := float_exponent fuel e a in
  (e < e')%Z -> powerRZ 2 e' <= a.
Proof.
  induction fuel as [|k IH]; intros e a; simpl; [lia |].
  destruct (Rlt_dec a (powerRZ 2 (e + 1))) as [Hlt|Hge]; [lia |].
  intros He.
  destruct (Z.eq_dec (float_exponent k (e + 1) a) (e + 1)%Z) as [E|E].
  - rewrite E. lra.
  - apply IH. pose proof (float_exponent_floor k (e + 1) a). lia.
Qed.

Lemma float_exponent_spec fuel : forall e e0 a,
  (e <= e0)%Z -> (e0 - e <= Z.of_nat fuel)%Z ->
  powerRZ 2 e0 <= a < powerRZ 2 (e0 + 1) ->
  float_exponent fuel e a = e0.
Proof.
  induction fuel as [|k IH]; intros e e0 a He Hf Ha.
  - simpl in *. lia.
  - cbn [float_exponent].
    destruct (Rlt_dec a (powerRZ 2 (e + 1))) as [Hlt|Hge].
    + destruct (Z.eq_dec e e0) as [E|E]; [exact E |].
      exfalso.
      assert (powerRZ 2 (e + 1) <= powerRZ 2 e0)
        by (apply powerRZ_2_mono; lia).
      lra.
    + destruct (Z.eq_dec e e0) as [E|E]; [subst; lra |].
      apply IH; [lia | lia | exact Ha].
Qed.

Lemma narrow_0 : narrow 0 = 0.
Proof.
  unfold narrow. rewrite Rmult_0_l.
  rewrite (nearest_even_int 0). lra.
Qed.

(** Narrowing moves a number by at most half a unit in the last place. *)
Lemma narrow_close x :
  Rabs (narrow x - x) <= Rabs x * powerRZ 2 (-24) + powerRZ 2 (-150).
Proof.
  unfold narrow.
  set (e := float_exponent 253 (-126) (Rabs x)).
  set (r := x * powerRZ 2 (23 - e)).
  assert (Hx : x = r * powerRZ 2 (e - 23)).
  { unfold r. rewrite Rmult_assoc, <- powerRZ_2_split.
    replace (23 - e + (e - 23))%Z with 0%Z by lia. simpl. lra. }
  assert (Hd : Rabs (IZR (nearest_even r) * powerRZ 2 (e - 23) - x)
               <= powerRZ 2 (e - 24)).
  { rewrite Hx at 1. rewrite <- Rmult_minus_distr_r, Rabs_mult.
    rewrite (Rabs_pos_eq (powerRZ 2 (e - 23)))
      by (apply Rlt_le, powerRZ_2_pos).
    replace (e - 23)%Z with (1 + (e - 24))%Z by lia.
    rewrite powerRZ_2_split. simpl (powerRZ 2 1).
    pose proof (nearest_even_close r).
    pose proof (powerRZ_2_pos (e - 24)). nra. }
  pose proof (float_exponent_floor 253 (-126) (Rabs x)) as Hfl. fold e in Hfl.
  destruct (Z.eq_dec e (-126)%Z) as [E|E].
  - assert (E' : powerRZ 2 (e - 24) = powerRZ 2 (-150))
      by (f_equal; lia).
    rewrite E' in Hd.
    assert (0 <= Rabs x * powerRZ 2 (-24)).
    { apply Rmult_le_pos; [apply Rabs_pos |].
      apply Rlt_le, powerRZ_2_pos. }
    lra.
  - assert (Hle : powerRZ 2 e <= Rabs x).
    { apply (float_exponent_le 253 (-126) (Rabs x)). fold e. lia. }
    replace (e - 24)%Z with (e + -24)%Z in Hd by lia.
    rewrite powerRZ_2_split in Hd.
    assert (powerRZ 2 e * powerRZ 2 (-24) <= Rabs x * powerRZ 2 (-24)).
    { apply Rmult_le_compat_r; [apply Rlt_le, powerRZ_2_pos | exact Hle]. }
    pose proof (powerRZ_2_pos (-150)). lra.
Qed.

Lemma narrow_nonneg x : 0 <= x -> 0 <= narrow x.
Proof.
  intros H. unfold narrow.
  apply Rmult_le_pos; [| apply Rlt_le, powerRZ_2_pos].
  apply IZR_le, nearest_even_nonneg.
  apply Rmult_le_pos; [exact H | apply Rlt_le, powerRZ_2_pos].
Qed.

(** Twice the bound of [narrow_close]: room for the rounding of the
    [double] that is narrowed. *)
Lemma narrow_within x :
  Rabs (narrow x - x) <= Rabs x * powerRZ 2 (-23) + powerRZ 2 (-149).
Proof.
  eapply Rle_trans; [apply narrow_close |].
  pose proof (powerRZ_2_mono (-24) (-23)) as H1.
  pose proof (powerRZ_2_mono (-150) (-149)) as H2.
  pose proof (Rabs_pos x) as Hx.
  assert (Rabs x * powerRZ 2 (-24) <= Rabs x * powerRZ 2 (-23))
    by (apply Rmult_le_compat_l; [exact Hx | apply H1; lia]).
  assert (powerRZ 2 (-150) <= powerRZ 2 (-149)) by (apply H2; lia).
  lra.
Qed.

Lemma narrow_upper x : 0 <= x -> narrow x <= 1.000001 * x + 1e-40.
Proof.
  intros Hx. pose proof (narrow_close x) as H.
  rewrite (Rabs_pos_eq x) in H by exact Hx.
  pose proof (Rle_abs (narrow x - x)) as Habs.
  assert (H24 : powerRZ 2 (-24) <= 0.000001) by (simpl; lra).
  assert (H150 : powerRZ 2 (-150) <= 1e-40).
  { replace (-150)%Z with (-50 + (-50 + -50))%Z by lia.
    rewrite !powerRZ_2_split.
    assert (Hp : 0 < powerRZ 2 (-50) <= 1e-15) by (simpl; lra).
    revert Hp. generalize (powerRZ 2 (-50)). intros p Hp.
    assert (p * p <= 1e-15 * 1e-15) by nra.
    assert (0 <= p * p) by nra.
    assert (p * (p * p) <= 1e-15 * (1e-15 * 1e-15)) by nra.
    lra. }
  assert (x * powerRZ 2 (-24) <= x * 0.000001)
    by (apply Rmult_le_compat_l; assumption).
  lra.
Qed.

(** The [float] of a number, from its exponent and its significand. *)
Lemma narrow_value x e m :
  (-126 <= e <= 127)%Z ->
  powerRZ 2 e <= Rabs x < powerRZ 2 (e + 1) ->
  Rabs (x * powerRZ 2 (23 - e) - IZR m) < 1 / 2 ->
  narrow x = IZR m * powerRZ 2 (e - 23).
Proof.
  intros He Hx Hm. unfold narrow.
  rewrite (float_exponent_spec 253 (-126) e (Rabs x));
    [| lia | simpl; lia | exact Hx].
  by rewrite (nearest_even_unique _ m Hm).
Qed.

(** 120.1 is not a [float]: narrowed, it is 15741747 / 2^17. *)
Lemma narrow_120_1 : narrow 120.1 = 15741747 / 131072.
Proof.
  rewrite (narrow_value 120.1 6 15741747).
  - simpl. lra.
  - lia.
  - rewrite Rabs_pos_eq by lra. simpl. lra.
  - apply Rabs_def1; simpl; lra.
Qed.

(** Nor is 120.1 / 20: narrowed, it is 6296699 / 2^20. *)
Lemma narrow_6_005 : narrow (120.1 / 20) = 6296699 / 1048576.
Proof.
  rewrite (narrow_value (120.1 / 20) 2 12593398).
  - simpl. lra.
  - lia.
  - rewrite Rabs_pos_eq by lra. simpl. lra.
  - apply Rabs_def1; simpl; lra.
Qed.

(** ** Paths *)

Lemma append_cons c (p s : string) : String c p +:+ s = String c (p +:+ s).
Proof. reflexivity. Qed.

Lemma length_append (p s : string) :
  String.length (p +:+ s) = (String.length p + String.length s)%nat.
Proof.
  induction p as [|c p IH]; [reflexivity |].
  rewrite append_cons. simpl. by rewrite IH.
Qed.

Lemma append_assoc (p q s : string) : (p +:+ q) +:+ s = p +:+ (q +:+ s).
Proof.
  induction p as [|c p IH]; [reflexivity |].
  rewrite !append_cons. by rewrite IH.
Qed.

Lemma drop_chars_append (p s : string) :
  drop_chars (String.length p) (p +:+ s) = s.
Proof.
  induction p as [|c p IH]; [reflexivity |].
  rewrite append_cons. exact IH.
Qed.

Lemma ends_with_append (p s : string) : ends_with s (p +:+ s) = true.
Proof.
  unfold ends_with. rewrite length_append.
  replace (String.length p + String.length s - String.length s)%nat
    with (String.length p) by lia.
  rewrite drop_chars_append. apply String.eqb_refl.
Qed.

(** A leaf under the configuration path is never a path that does not end
    in "/" followed by the leaf's name. *)
Lemma config_leaf_neq this name (p : node) :
  ends_with ("/" +:+ name) p = false -> config_leaf this name <> p.
Proof.
  intros H E. unfold config_leaf in E. rewrite append_assoc in E.
  rewrite <- E, ends_with_append in H. discriminate.
Qed.

Lemma config_leaf_inj this a b :
  config_leaf this a = config_leaf this b -> a = b.
Proof.
  unfold config_leaf. generalize (config_path this +:+ "/").
  intros p. induction p as [|c p IH]; [done |].
  rewrite !append_cons. intros H. injection H as H. auto.
Qed.

(** ** Reading and writing leaves *)

Section TreeFacts.
Variable env : Env.

Lemma leaf_value_insert (t : gmap string value) n p v :
  leaf_value (<[n := v]> t) p
  = if decide (n = p) then v else leaf_value t p.
Proof.
  unfold leaf_value. rewrite lookup_insert. by destruct (decide (n = p)).
Qed.

Lemma leaf_value_insert_ne (t : gmap string value) n p v :
  n <> p -> leaf_value (<[n := v]> t) p = leaf_value t p.
Proof. intros H. unfold leaf_value. by rewrite lookup_insert_ne. Qed.

Lemma leaf_value_insert_eq (t : gmap string value) n v :
  leaf_value (<[n := v]> t) n = v.
Proof. unfold leaf_value. by rewrite lookup_insert_eq. Qed.

Lemma leaf_value_ensure (t : gmap string value) n p :
  leaf_value (ensure n t) p = leaf_value t p.
Proof.
  unfold ensure. destruct (t !! n) eqn:E; [reflexivity |].
  rewrite leaf_value_insert. destruct (decide (n = p)) as [<-|]; [| done].
  unfold leaf_value. by rewrite E.
Qed.

Lemma read_double_insert_ne (t : gmap string value) n p v :
  n <> p -> read_double env (<[n := v]> t) p = read_double env t p.
Proof. intros H. unfold read_double. by rewrite leaf_value_insert_ne. Qed.

Lemma read_string_insert_ne (t : gmap string value) n p v :
  n <> p -> read_string env (<[n := v]> t) p = read_string env t p.
Proof. intros H. unfold read_string. by rewrite leaf_value_insert_ne. Qed.

Lemma read_double_insert (t : gmap string value) n v :
  read_double env (<[n := v]> t) n = as_double env v.
Proof. unfold read_double. by rewrite leaf_value_insert_eq. Qed.

Lemma read_double_ensure (t : gmap string value) n p :
  read_double env (ensure n t) p = read_double env t p.
Proof. unfold read_double. by rewrite leaf_value_ensure. Qed.

Lemma fgGetNode_create path w :
  fgGetNode path true w
  = Some (Some path, World (ensure path (tree w)) (writes w) (stdout w)).
Proof.
  unfold fgGetNode, ensure. destruct (tree w !! path); [| reflexivity].
  by destruct w.
Qed.

(** A tick of a bound manager never fails; it returns [true] and leaves
    the world [publish] describes. *)
Lemma update_bound this w :
  update env (bound this) w
  = Some (true, publish (locals env this (tree w)) w).
Proof.
  unfold update, andThen, bound; cbn [direction_node coord_lon_node
    coord_lat_node lon_node lat_node radius_node target_course_deg
    L1_period_node groundspeed_node groundtrack_node bank_limit_node
    ap_roll_node wp_dist_m wp_eta_sec getStringValue getDoubleValue
    setDoubleValue setFloatValue store tree writes stdout].
  unfold locals, publish, tick_writes, eta_sec.
  destruct (CourseAndDistance env _ _ _ _) as [course_deg dist_m].
  unfold written.
  cbn [fst snd fold_left tree writes stdout t_target_crs
       t_target_bank_deg t_dist_m t_gs_mps].
  rewrite !read_double_insert_ne by discriminate.
  destruct (Rgt_dec _ one_tenth);
    cbn [store ret tree writes stdout];
    rewrite <- !app_assoc; reflexivity.
Qed.

End TreeFacts.

(** ** The arithmetic of a tick *)

Ltac by_cases :=
  repeat match goal with
         | |- context [Rlt_dec ?a ?b] => destruct (Rlt_dec a b)
         | |- context [Rgt_dec ?a ?b] => destruct (Rgt_dec a b)
         end.

Lemma direction_of_cases s : direction_of s = 1 \/ direction_of s = -1.
Proof. unfold direction_of. destruct (String.eqb s "right"); auto. Qed.

Lemma direction_of_right s : direction_of s = -1 <-> s = "right".
Proof.
  unfold direction_of. destruct (String.eqb_spec s "right") as [E|E].
  - tauto.
  - split; [lra | done].
Qed.

Lemma clamp_radius_floor r : 10 <= clamp_radius r.
Proof. unfold clamp_radius. by_cases; lra. Qed.

Lemma clamp_radius_max r : clamp_radius r = Rmax r 10.
Proof.
  unfold clamp_radius, Rmax. by_cases; destruct (Rle_dec r 10); lra.
Qed.

Lemma ideal_crs_left course :
  0 <= course < 360 -> 0 < ideal_crs course 1 <= 360.
Proof. unfold ideal_crs, wrap_course. intros H. by_cases; lra. Qed.

Lemma ideal_crs_right course :
  0 <= course < 360 -> 0 <= ideal_crs course (-1) < 360.
Proof. unfold ideal_crs, wrap_course. intros H. by_cases; lra. Qed.

(** The quotient of a distance by a positive radius, between bounds. *)
Lemma share_bounds x radius_m lo hi :
  0 < radius_m -> lo * radius_m <= x <= hi * radius_m ->
  lo <= x / radius_m <= hi.
Proof.
  intros Hr H.
  assert (E : x = x / radius_m * radius_m) by (field; lra).
  revert E. generalize (x / radius_m). intros q E. nra.
Qed.

(** With a bearing in [0, 360) and the vehicle at a distance that is not
    negative, the target course is between 0 and 360, both included. *)
Lemma target_crs_range course direction dist_m radius_m :
  direction = 1 \/ direction = -1 ->
  0 <= course < 360 -> 0 <= dist_m -> 10 <= radius_m ->
  0 <= target_crs (ideal_crs course direction) direction dist_m radius_m
    <= 360.
Proof.
  intros Hd Hc Hdist Hr.
  pose proof (ideal_crs_left course Hc) as Hl.
  pose proof (ideal_crs_right course Hc) as Hrt.
  unfold target_crs.
  destruct (Rlt_dec dist_m radius_m) as [Hin|Hin].
  - assert (Hq : 0 <= dist_m / radius_m <= 1)
      by (apply share_bounds; lra).
    revert Hq. generalize (dist_m / radius_m). intros q Hq.
    unfold wrap_course.
    destruct Hd as [-> | ->]; by_cases; lra.
  - destruct (Rgt_dec dist_m radius_m) as [Hout|Hout].
    + set (od := if Rgt_dec (dist_m - radius_m) radius_m
                 then radius_m else dist_m - radius_m).
      assert (Hod : 0 <= od <= radius_m)
        by (unfold od; by_cases; lra).
      assert (Hq : 0 <= od / radius_m <= 1)
        by (apply share_bounds; lra).
      assert (E : forall d, d * 90 * od / radius_m = d * 90 * (od / radius_m))
        by (intros d; field; lra).
      rewrite E. revert Hq. generalize (od / radius_m). intros q Hq.
      unfold wrap_course.
      destruct Hd as [-> | ->]; by_cases; lra.
    + destruct Hd as [-> | ->]; lra.
Qed.

(** Twice the radius away or further, the target course is the bearing to
    the centre, but for the bearing 0 when circling right: the course is
    then 360. *)
Lemma target_crs_far course direction dist_m radius_m :
  direction = 1 \/ direction = -1 ->
  0 <= course < 360 -> 10 <= radius_m -> 2 * radius_m <= dist_m ->
  target_crs (ideal_crs course direction) direction dist_m radius_m
  = if Rgt_dec course 0 then course
    else if Rlt_dec direction 0 then 360 else course.
Proof.
  intros Hd Hc Hr Hfar. unfold target_crs.
  destruct (Rlt_dec dist_m radius_m); [lra |].
  destruct (Rgt_dec dist_m radius_m); [| lra].
  set (od := if Rgt_dec (dist_m - radius_m) radius_m
             then radius_m else dist_m - radius_m).
  assert (Hod : od = radius_m) by (unfold od; by_cases; lra).
  rewrite Hod.
  assert (E : direction * 90 * radius_m / radius_m = direction * 90)
    by (field; lra).
  rewrite E. unfold ideal_crs, wrap_course.
  destruct Hd as [-> | ->]; by_cases; lra.
Qed.

Lemma limit_bank_range b limit :
  0 <= limit -> - limit <= limit_bank b limit <= limit.
Proof. unfold limit_bank. intros H. by_cases; lra. Qed.

Lemma limit_bank_negative b limit : limit < 0 -> limit_bank b limit = limit.
Proof. unfold limit_bank. intros H. by_cases; lra. Qed.

Lemma limit_bank_clamp b limit :
  0 <= limit -> limit_bank b limit = Rmax (- limit) (Rmin limit b).
Proof.
  unfold limit_bank, Rmax, Rmin. intros H.
  by_cases; destruct (Rle_dec limit b);
    destruct (Rle_dec (- limit) _); lra.
Qed.

Lemma course_error_same c : course_error c c = 0.
Proof. unfold course_error. by_cases; lra. Qed.

(** One wrap is enough when the difference is within a turn and a half. *)
Lemma course_error_range groundtrack target :
  -540 <= groundtrack - target <= 540 ->
  -180 <= course_error groundtrack target <= 180
  /\ (course_error groundtrack target = groundtrack - target
      \/ course_error groundtrack target = groundtrack - target + 360
      \/ course_error groundtrack target = groundtrack - target - 360).
Proof. unfold course_error. intros H. by_cases; lra. Qed.

Lemma track_accel_on_course L1_period gs_mps :
  track_accel L1_period gs_mps 0 = 0.
Proof. unfold track_accel. rewrite Rmult_0_l, sin_0. lra. Qed.

Lemma eta_sec_moving dist_m gs_mps :
  gs_mps > one_tenth -> eta_sec dist_m gs_mps = dist_m / gs_mps.
Proof. unfold eta_sec. intros H. by_cases; lra. Qed.

Lemma eta_sec_slow dist_m gs_mps :
  gs_mps <= one_tenth -> eta_sec dist_m gs_mps = 0.
Proof. unfold eta_sec. intros H. by_cases; lra. Qed.

(** For an L1 period other than 0 the arithmetic of the source has the
    number that [track_accel] is. *)
Lemma track_accel_ieee_finite L1_period gs_mps error :
  L1_period <> 0 ->
  track_accel_ieee L1_period gs_mps error
  = Finite (track_accel L1_period gs_mps error).
Proof.
  intros H. unfold track_accel_ieee, ieee_div, track_accel.
  destruct (Req_dec_T L1_period 0); [done | reflexivity].
Qed.

(** With an L1 period of 0 and no course error it has no number. *)
Lemma track_accel_ieee_zero_period gs_mps :
  track_accel_ieee 0 gs_mps 0 = NotANumber.
Proof.
  unfold track_accel_ieee, ieee_div, ieee_mul.
  rewrite Rmult_0_l, sin_0.
  destruct (Req_dec_T 0 0) as [_|n]; [| by destruct n].
  destruct (Req_dec_T (sqrt_of_2 * SGD_PI) 0); [reflexivity |].
  destruct (Req_dec_T gs_mps 0); [reflexivity |].
  destruct (Req_dec_T (2 * 0) 0) as [_|n']; [reflexivity |].
  exfalso. apply n'. lra.
Qed.

Lemma same_course_eq tol a b :
  0 <= tol -> a = b \/ a = b + 360 \/ a = b - 360 -> same_course tol a b.
Proof.
  intros Ht H. unfold same_course.
  destruct H as [-> | [-> | ->]]; [left | right; left | right; right];
    unfold Rminus; rewrite Rplus_opp_r, Rabs_R0; exact Ht.
Qed.

(** ** What a tick publishes *)

Section Published.
Variable env : Env.

Lemma tree_publish l w :
  tree (publish l w)
  = <["/mission/route/wp-eta-sec" :=
        VFloat (narrow (eta_sec (t_dist_m l) (t_gs_mps l)))]>
      (<["/mission/route/wp-dist-m" := VFloat (narrow (t_dist_m l))]>
         (<["/autopilot/settings/target-roll-deg" :=
              VDouble (t_target_bank_deg l)]>
            (<["/autopilot/settings/target-groundtrack-deg" :=
                 VDouble (t_target_crs l)]> (tree w)))).
Proof. reflexivity. Qed.

Lemma published_course l w :
  read_double env (tree (publish l w))
              "/autopilot/settings/target-groundtrack-deg"
  = t_target_crs l.
Proof.
  rewrite tree_publish.
  rewrite !read_double_insert_ne by discriminate.
  apply read_double_insert.
Qed.

Lemma published_roll l w :
  read_double env (tree (publish l w))
              "/autopilot/settings/target-roll-deg"
  = t_target_bank_deg l.
Proof.
  rewrite tree_publish.
  rewrite !read_double_insert_ne by discriminate.
  apply read_double_insert.
Qed.

Lemma published_dist l w :
  read_double env (tree (publish l w)) "/mission/route/wp-dist-m"
  = narrow (t_dist_m l).
Proof.
  rewrite tree_publish.
  rewrite !read_double_insert_ne by discriminate.
  apply read_double_insert.
Qed.

Lemma published_eta l w :
  read_double env (tree (publish l w)) "/mission/route/wp-eta-sec"
  = narrow (eta_sec (t_dist_m l) (t_gs_mps l)).
Proof. rewrite tree_publish. apply read_double_insert. Qed.

Lemma publish_frame l w (p : node) :
  ~ In p outputs -> tree (publish l w) !! p = tree w !! p.
Proof.
  intros H. rewrite tree_publish.
  rewrite !lookup_insert_ne; [done | | | |];
    intros <-; apply H; simpl; auto.
Qed.

Lemma config_leaf_not_output this name :
  ends_with ("/" +:+ name) "/autopilot/settings/target-groundtrack-deg"
  = false ->
  ends_with ("/" +:+ name) "/autopilot/settings/target-roll-deg" = false ->
  ends_with ("/" +:+ name) "/mission/route/wp-dist-m" = false ->
  ends_with ("/" +:+ name) "/mission/route/wp-eta-sec" = false ->
  ~ In (config_leaf this name) outputs.
Proof.
  intros H1 H2 H3 H4 [E|[E|[E|[E|[]]]]]; symmetry in E;
    revert E; by apply config_leaf_neq.
Qed.

End Published.

(** ** Properties of a tick *)

Section Tick.
Variable env : Env.



Lemma locals_ideal_crs this t :
  let l := locals env this t in
  t_ideal_crs l = ideal_crs (t_course_deg l) (t_direction l).
Proof. reflexivity. Qed.

Lemma locals_target_crs this t :
  let l := locals env this t in
  t_target_crs l
  = target_crs (t_ideal_crs l) (t_direction l) (t_dist_m l) (t_radius_m l).
Proof. reflexivity. Qed.

Lemma locals_course_error this t :
  let l := locals env this t in
  t_course_error l = course_error (t_groundtrack l) (t_target_crs l).
Proof. reflexivity. Qed.

Lemma locals_accel this t :
  let l := locals env this t in
  t_accel l = track_accel (t_L1_period l) (t_gs_mps l) (t_course_error l).
Proof. reflexivity. Qed.

Lemma locals_ideal_accel this t :
  let l := locals env this t in
  t_ideal_accel l
  = ideal_accel (t_direction l) (t_gs_mps l) (t_radius_m l).
Proof. reflexivity. Qed.

Lemma locals_target_bank_deg this t :
  let l := locals env this t in
  t_target_bank_deg l
  = limit_bank (bank_of_accel (t_ideal_accel l + t_accel l))
               (t_bank_limit_deg l).
Proof. reflexivity. Qed.

Lemma locals_radius_floor this t : 10 <= t_radius_m (locals env this t).
Proof. apply clamp_radius_floor. Qed.

Lemma locals_direction_cases this t :
  let l := locals env this t in t_direction l = 1 \/ t_direction l = -1.
Proof. apply direction_of_cases. Qed.

(** C1 (as amended): in every tick of a bound manager in which the bank
    limit read from the tree is not negative and the L1 period is not 0,
    the bank angle written to /autopilot/settings/target-roll-deg lies
    between minus the bank limit and the bank limit, whatever the
    position, ground track, ground speed, centre, radius and direction
    are. *)
Theorem bank_within_limit (this : AuraCircleMgr) (w : world) :
  let bank_limit_deg :=
    read_double env (tree w)
                "/config/fcs/autopilot/L1-controller/bank-limit-deg" in
  let L1_period :=
    read_double env (tree w)
                "/config/fcs/autopilot/L1-controller/period" in
  0 <= bank_limit_deg ->
  L1_period <> 0 ->
  exists w',
    update env (bound this) w = Some (true, w')
    /\ - bank_limit_deg
       <= read_double env (tree w') "/autopilot/settings/target-roll-deg"
       <= bank_limit_deg.
Proof.
  intros L P HL _. eexists. split; [apply update_bound |].
  rewrite published_roll. apply limit_bank_range, HL.
Qed.

(** With a negative bank limit the tick writes the bank limit itself. *)
Lemma bank_negative_limit (this : AuraCircleMgr) (w : world) :
  let bank_limit_deg :=
    read_double env (tree w)
                "/config/fcs/autopilot/L1-controller/bank-limit-deg" in
  bank_limit_deg < 0 ->
  exists w',
    update env (bound this) w = Some (true, w')
    /\ read_double env (tree w') "/autopilot/settings/target-roll-deg"
       = bank_limit_deg.
Proof.
  intros L HL. eexists. split; [apply update_bound |].
  rewrite published_roll. apply limit_bank_negative, HL.
Qed.

(** C2 (as amended): in every tick of a bound manager in which the
    geodesic helper returns a bearing in [0, 360) and a distance that is
    not negative, the course written to
    /autopilot/settings/target-groundtrack-deg lies in the closed interval
    [0, 360], for every direction and radius. *)
Theorem target_course_range (this : AuraCircleMgr) (w : world) :
  let l := locals env this (tree w) in
  0 <= t_course_deg l < 360 ->
  0 <= t_dist_m l ->
  exists w',
    update env (bound this) w = Some (true, w')
    /\ 0 <= read_double env (tree w')
              "/autopilot/settings/target-groundtrack-deg" <= 360.
Proof.
  intros l Hc Hd. eexists. split; [apply update_bound |].
  rewrite published_course. apply target_crs_range; auto.
  - apply direction_of_cases.
  - apply clamp_radius_floor.
Qed.

(** C3 (as amended): when the distance to the centre is the clamped
    radius, the ground track is the ideal course, the ground speed is
    positive and the L1 period is not 0, the acceleration that answers the
    course error is 0, in the arithmetic of the source too, and the bank
    written is -atan(d V^2 / (R 9.81)) in degrees, put through the bank
    limit. *)
Theorem steady_state_circle (this : AuraCircleMgr) (w : world) :
  let l := locals env this (tree w) in
  t_dist_m l = t_radius_m l ->
  t_groundtrack l = t_ideal_crs l ->
  0 < t_gs_mps l ->
  t_L1_period l <> 0 ->
  let steady :=
    steady_bank_deg (t_direction l) (t_gs_mps l) (t_radius_m l) in
  t_accel l = 0
  /\ track_accel_ieee (t_L1_period l) (t_gs_mps l) (t_course_error l)
     = Finite 0
  /\ exists w',
       update env (bound this) w = Some (true, w')
       /\ read_double env (tree w') "/autopilot/settings/target-roll-deg"
          = limit_bank steady (t_bank_limit_deg l)
       /\ (0 <= t_bank_limit_deg l ->
           read_double env (tree w') "/autopilot/settings/target-roll-deg"
           = Rmax (- t_bank_limit_deg l)
                  (Rmin (t_bank_limit_deg l) steady)).
Proof.
  intros l Hd Hg HV HL steady.
  assert (Hcrs : t_target_crs l = t_ideal_crs l).
  { unfold l at 1. rewrite locals_target_crs. fold l. rewrite Hd.
    unfold target_crs. by_cases; lra. }
  assert (Herr : t_course_error l = 0).
  { unfold l at 1. rewrite locals_course_error. fold l.
    rewrite Hcrs, Hg. apply course_error_same. }
  assert (Hacc : t_accel l = 0).
  { unfold l at 1. rewrite locals_accel. fold l.
    rewrite Herr. apply track_accel_on_course. }
  assert (Hbank : t_target_bank_deg l
                  = limit_bank steady (t_bank_limit_deg l)).
  { unfold l at 1. rewrite locals_target_bank_deg. fold l.
    rewrite Hacc. f_equal. unfold l at 1. rewrite locals_ideal_accel.
    fold l. unfold steady, steady_bank_deg, bank_of_accel, ideal_accel,
      gravity.
    do 3 f_equal. unfold Rsqr. field.
    pose proof (locals_radius_floor this (tree w)). fold l in H. lra. }
  split; [exact Hacc |].
  split.
  { rewrite track_accel_ieee_finite by exact HL. f_equal.
    rewrite Herr. apply track_accel_on_course. }
  eexists. split; [apply update_bound |].
  rewrite published_roll. fold l. split; [exact Hbank |].
  intros Hlim. rewrite Hbank. by apply limit_bank_clamp.
Qed.

(** C5 (as amended): in every tick in which the bearing to the centre is
    in [0, 360) and the distance is at least twice the clamped radius,
    the course written is in [0, 360] and is the bearing to the centre up
    to a full turn and a billionth of a degree (in exact arithmetic it is
    the bearing itself, but for bearing 0 and direction right, where it is
    360). *)
Theorem far_field (this : AuraCircleMgr) (w : world) :
  let l := locals env this (tree w) in
  0 <= t_course_deg l < 360 ->
  2 * t_radius_m l <= t_dist_m l ->
  exists w',
    update env (bound this) w = Some (true, w')
    /\ same_course 1e-9
         (read_double env (tree w')
                      "/autopilot/settings/target-groundtrack-deg")
         (t_course_deg l)
    /\ 0 <= read_double env (tree w')
              "/autopilot/settings/target-groundtrack-deg" <= 360.
Proof.
  intros l Hc Hfar. eexists. split; [apply update_bound |].
  rewrite published_course. fold l.
  assert (Hd : t_direction l = 1 \/ t_direction l = -1)
    by apply direction_of_cases.
  pose proof (locals_radius_floor this (tree w)) as Hr. fold l in Hr.
  assert (E : t_target_crs l
              = if Rgt_dec (t_course_deg l) 0 then t_course_deg l
                else if Rlt_dec (t_direction l) 0 then 360
                     else t_course_deg l).
  { apply target_crs_far; auto. }
  split.
  - apply same_course_eq; [lra |]. rewrite E.
    destruct (Rgt_dec (t_course_deg l) 0); [by left |].
    destruct (Rlt_dec (t_direction l) 0); [right; left; lra | by left].
  - apply (target_crs_range (t_course_deg l) (t_direction l) (t_dist_m l)
             (t_radius_m l)); [exact Hd | exact Hc | lra | exact Hr].
Qed.

(** C6 (as amended): in every tick (with a distance of at most 10^30 m),
    /mission/route/wp-dist-m receives the distance the geodesic helper
    returned, narrowed to a [float]; /mission/route/wp-eta-sec receives 0
    when the ground speed is not above the 0.1 of the source, and
    otherwise the distance divided by the ground speed, up to the
    narrowing: a relative 2^-23 and an absolute 2^-149. *)
Theorem eta_published (this : AuraCircleMgr) (w : world) :
  let centre :=
    WayPoint (read_double env (tree w) (config_leaf this "longitude-deg"))
             (read_double env (tree w) (config_leaf this "latitude-deg")) in
  let dist_m :=
    snd (CourseAndDistance env centre
           (read_double env (tree w) "/position/longitude-deg")
           (read_double env (tree w) "/position/latitude-deg") 0) in
  let gs_mps := read_double env (tree w) "/velocity/groundspeed-ms" in
  Rabs dist_m <= 1e30 ->
  exists w',
    update env (bound this) w = Some (true, w')
    /\ read_double env (tree w') "/mission/route/wp-dist-m" = narrow dist_m
    /\ Rabs (read_double env (tree w') "/mission/route/wp-dist-m" - dist_m)
       <= Rabs dist_m * powerRZ 2 (-24) + powerRZ 2 (-150)
    /\ (gs_mps > one_tenth ->
        Rabs (read_double env (tree w') "/mission/route/wp-eta-sec"
              - dist_m / gs_mps)
        <= Rabs (dist_m / gs_mps) * powerRZ 2 (-23) + powerRZ 2 (-149))
    /\ (gs_mps <= one_tenth ->
        read_double env (tree w') "/mission/route/wp-eta-sec" = 0).
Proof.
  intros centre dist_m gs_mps _. eexists.
  split; [apply update_bound |].
  rewrite published_eta, published_dist. cbn [locals t_dist_m t_gs_mps].
  fold centre dist_m gs_mps.
  split; [reflexivity |]. split; [apply narrow_close |].
  split; intros Hgs.
  - rewrite eta_sec_moving by exact Hgs. apply narrow_within.
  - rewrite eta_sec_slow by exact Hgs. apply narrow_0.
Qed.

(** C8: in every tick the direction sign is -1 exactly when the string
    read from the direction leaf is "right": the course and the bank
    written are then the ones of the sign -1, and with any other string,
    "banana" and the empty string among them, the ones of the sign +1; the
    tick prints nothing.  (The bank is stated for an L1 period other than
    0.) *)
Theorem direction_sign (this : AuraCircleMgr) (w : world) :
  let direction_str :=
    read_string env (tree w) (config_leaf this "direction") in
  let l := locals env this (tree w) in
  let course d :=
    target_crs (ideal_crs (t_course_deg l) d) d (t_dist_m l)
               (t_radius_m l) in
  let bank d :=
    limit_bank
      (bank_of_accel
         (ideal_accel d (t_gs_mps l) (t_radius_m l)
          + track_accel (t_L1_period l) (t_gs_mps l)
                        (course_error (t_groundtrack l) (course d))))
      (t_bank_limit_deg l) in
  (t_direction l = -1 <-> direction_str = "right")
  /\ direction_of "banana" = 1
  /\ direction_of "" = 1
  /\ exists w',
       update env (bound this) w = Some (true, w')
       /\ stdout w' = stdout w
       /\ (direction_str = "right" ->
           read_double env (tree w')
                       "/autopilot/settings/target-groundtrack-deg"
           = course (-1)
           /\ (t_L1_period l <> 0 ->
               read_double env (tree w')
                           "/autopilot/settings/target-roll-deg"
               = bank (-1)))
       /\ (direction_str <> "right" ->
           read_double env (tree w')
                       "/autopilot/settings/target-groundtrack-deg"
           = course 1
           /\ (t_L1_period l <> 0 ->
               read_double env (tree w')
                           "/autopilot/settings/target-roll-deg"
               = bank 1)).
Proof.
  intros s l course bank. split; [apply direction_of_right |].
  do 2 (split; [reflexivity |]).
  eexists. split; [apply update_bound |]. split; [reflexivity |].
  rewrite published_course, published_roll. fold l.
  assert (Ec : t_target_crs l = course (t_direction l)) by reflexivity.
  assert (Eb : t_target_bank_deg l = bank (t_direction l)) by reflexivity.
  rewrite Ec, Eb.
  split; intros H.
  - assert (Hd : t_direction l = -1) by by apply direction_of_right.
    rewrite Hd. split; [reflexivity | intros _; reflexivity].
  - assert (Hd : t_direction l = 1).
    { destruct (direction_of_cases s) as [E|E]; [exact E |].
      by apply direction_of_right in E. }
    rewrite Hd. split; [reflexivity | intros _; reflexivity].
Qed.

End Tick.

(** ** Binding *)

Ltac path_neq :=
  first [ discriminate
        | apply config_leaf_neq; reflexivity
        | apply not_eq_sym, config_leaf_neq; reflexivity
        | let E := fresh in
          intros E; apply config_leaf_inj in E; discriminate ].

Ltac in_list := cbn [In]; repeat (first [by left | right]).

Ltac create_nodes :=
  repeat (rewrite fgGetNode_create; cbn beta iota;
          cbn [tree writes stdout]).

Ltac reads_of_start :=
  repeat first [ rewrite read_double_ensure
               | rewrite read_double_insert_ne by path_neq ].

Section BindFacts.
Variable env : Env.

(** [bind] never fails: it returns [true], leaves every handle bound, and
    changes the tree by creating leaves and by the writes that
    [bind_writes] lists. *)
Lemma bind_bound this w :
  exists w1,
    bind env this w = Some (true, bound this, w1)
    /\ stdout w1 = stdout w
    /\ writes w1 = (writes w ++ bind_writes env this (tree w))%list
    /\ forall p, leaf_value (tree w1) p
                 = leaf_value (written (bind_writes env this (tree w))
                                       (tree w)) p.
Proof.
  unfold bind, bind_writes, andThen. create_nodes.
  destruct (Rgt_dec (_target_agl_ft this) 0);
    cbn [setDoubleValue store ret tree writes stdout]; create_nodes;
    (destruct (Rgt_dec (_target_speed_kt this) 0);
     cbn [setDoubleValue store ret tree writes stdout]; create_nodes;
     cbn [getDoubleValue tree writes stdout]; reads_of_start).
  all: destruct (Rlt_dec (read_double env (tree w)
         "/config/fcs/autopilot/L1-controller/bank-limit-deg") 0.1);
    cbn [setDoubleValue getDoubleValue store ret tree writes stdout];
    reads_of_start.
  all: destruct (Rlt_dec (read_double env (tree w)
         "/config/fcs/autopilot/L1-controller/period") 0.1);
    cbn [setDoubleValue getDoubleValue store ret tree writes stdout];
    create_nodes.
  all: eexists; split; [reflexivity |]; cbn [tree writes stdout].
  all: split; [reflexivity |].
  all: split;
    [rewrite <- ?app_assoc; cbn [app]; try rewrite app_nil_r; reflexivity |].
  all: intros p; unfold written; cbn [fold_left app fst snd];
    repeat (rewrite leaf_value_ensure || rewrite leaf_value_insert);
    reflexivity.
Qed.

End BindFacts.

(** ** Ticks in a row *)

Lemma count_writes_app p (a b : list (string * value)) :
  count_writes p (a ++ b) = (count_writes p a + count_writes p b)%nat.
Proof. unfold count_writes. by rewrite List.filter_app, List.length_app. Qed.

Lemma count_writes_absent p (l : list (string * value)) :
  ~ In p (map fst l) -> count_writes p l = 0%nat.
Proof.
  unfold count_writes. induction l as [|[n v] l IH]; [reflexivity |].
  intros H. cbn [List.filter fst]. destruct (String.eqb_spec n p) as [E|E].
  - exfalso. apply H. left. exact E.
  - apply IH. intros Hin. apply H. right. exact Hin.
Qed.

Lemma in_concat_repeat {A} (x : A) (l : list A) n :
  In x (concat (repeat l n)) -> In x l.
Proof.
  induction n as [|n IH]; cbn [repeat concat]; [done |].
  rewrite in_app_iff. tauto.
Qed.

Section Frame.
Variable env : Env.

(** [n] ticks of a bound manager never fail; they write the four output
    leaves [n] times over, print nothing, and change no other leaf. *)
Lemma run_ticks_bound this n : forall w,
  exists w' l,
    run_ticks env n (bound this) w = Some (true, w')
    /\ writes w' = (writes w ++ l)%list
    /\ map fst l = concat (repeat outputs n)
    /\ stdout w' = stdout w
    /\ forall p, ~ In p outputs -> tree w' !! p = tree w !! p.
Proof.
  induction n as [|n IH]; intros w.
  - exists w, []. cbn [run_ticks ret repeat concat map].
    rewrite app_nil_r. auto.
  - cbn [run_ticks]. unfold andThen. rewrite update_bound.
    set (l := locals env this (tree w)).
    destruct (IH (publish l w)) as (w' & l' & Hrun & Hw & Hl & Hout & Hfr).
    exists w', (tick_writes l ++ l')%list. split; [exact Hrun |].
    split; [rewrite Hw; cbn [publish writes]; by rewrite <- app_assoc |].
    split; [rewrite map_app, Hl; reflexivity |].
    split; [rewrite Hout; reflexivity |].
    intros p Hp. rewrite Hfr by exact Hp. by apply publish_frame.
Qed.
End Frame.

(** ** Effects on the tree *)

Section Effects.
Variable env : Env.

(** C10: [n] ticks of a bound manager write the four output leaves,
    target-groundtrack-deg, target-roll-deg, wp-dist-m and wp-eta-sec,
    once per tick and in that order, and nothing else: every other leaf
    holds what it held, and so do the centre, the direction, the radius,
    the bank limit and the L1 period. *)
Theorem tick_frame (this : AuraCircleMgr) (n : nat) (w : world) :
  exists w' l,
    run_ticks env n (bound this) w = Some (true, w')
    /\ writes w' = (writes w ++ l)%list
    /\ map fst l = concat (repeat outputs n)
    /\ (forall p, ~ In p outputs -> tree w' !! p = tree w !! p)
    /\ tree w' !! config_leaf this "longitude-deg"
       = tree w !! config_leaf this "longitude-deg"
    /\ tree w' !! config_leaf this "latitude-deg"
       = tree w !! config_leaf this "latitude-deg"
    /\ tree w' !! config_leaf this "direction"
       = tree w !! config_leaf this "direction"
    /\ tree w' !! config_leaf this "radius-m"
       = tree w !! config_leaf this "radius-m"
    /\ tree w' !! "/config/fcs/autopilot/L1-controller/bank-limit-deg"
       = tree w !! "/config/fcs/autopilot/L1-controller/bank-limit-deg"
    /\ tree w' !! "/config/fcs/autopilot/L1-controller/period"
       = tree w !! "/config/fcs/autopilot/L1-controller/period".
Proof.
  destruct (run_ticks_bound env this n w) as (w' & l & Hrun & Hw & Hl & _ & Hfr).
  exists w', l. do 4 (split; [assumption |]).
  repeat split; apply Hfr;
    first [ by apply config_leaf_not_output
          | intros [E|[E|[E|[E|[]]]]]; discriminate ].
Qed.

Lemma count_writes_nil p : count_writes p [] = 0%nat.
Proof. reflexivity. Qed.

Lemma count_writes_one p n v :
  count_writes p [(n, v)] = if String.eqb n p then 1%nat else 0%nat.
Proof. unfold count_writes. cbn. by destruct (String.eqb n p). Qed.

Lemma eqb_false_of_neq (a b : string) : a <> b -> String.eqb a b = false.
Proof. by intros H; apply String.eqb_neq. Qed.

(** C7 (as amended): [bind] writes a positive speed override once, to
    speed-kt under the configuration path, and a positive altitude
    override once, to altitude-agl-ft under the configuration path; it
    writes neither /autopilot/settings/target-speed-kt nor
    /autopilot/settings/target-agl-ft, which read as before; and no tick
    writes any of these four leaves. *)
Theorem overrides_at_bind (this : AuraCircleMgr) (w : world) :
  exists w1 l,
    bind env this w = Some (true, bound this, w1)
    /\ writes w1 = (writes w ++ l)%list
    /\ count_writes (config_leaf this "speed-kt") l
       = (if Rgt_dec (_target_speed_kt this) 0 then 1 else 0)%nat
    /\ count_writes (config_leaf this "altitude-agl-ft") l
       = (if Rgt_dec (_target_agl_ft this) 0 then 1 else 0)%nat
    /\ (_target_speed_kt this > 0 ->
        read_double env (tree w1) (config_leaf this "speed-kt")
        = _target_speed_kt this)
    /\ (_target_agl_ft this > 0 ->
        read_double env (tree w1) (config_leaf this "altitude-agl-ft")
        = _target_agl_ft this)
    /\ count_writes "/autopilot/settings/target-speed-kt" l = 0%nat
    /\ count_writes "/autopilot/settings/target-agl-ft" l = 0%nat
    /\ read_double env (tree w1) "/autopilot/settings/target-speed-kt"
       = read_double env (tree w) "/autopilot/settings/target-speed-kt"
    /\ read_double env (tree w1) "/autopilot/settings/target-agl-ft"
       = read_double env (tree w) "/autopilot/settings/target-agl-ft"
    /\ forall n w2, exists w3 l2,
         run_ticks env n (bound this) w2 = Some (true, w3)
         /\ writes w3 = (writes w2 ++ l2)%list
         /\ count_writes "/autopilot/settings/target-speed-kt" l2 = 0%nat
         /\ count_writes "/autopilot/settings/target-agl-ft" l2 = 0%nat
         /\ count_writes (config_leaf this "speed-kt") l2 = 0%nat
         /\ count_writes (config_leaf this "altitude-agl-ft") l2 = 0%nat.
Proof.
  destruct (bind_bound env this w) as (w1 & Hb & _ & Hw & Ht).
  exists w1, (bind_writes env this (tree w)).
  do 2 (split; [assumption |]).
  assert (Hrd : forall p, read_double env (tree w1) p
            = read_double env (written (bind_writes env this (tree w)) (tree w)) p).
  { intros p. unfold read_double. by rewrite Ht. }
  rewrite !Hrd.
  unfold bind_writes, written.
  repeat split.
  1-2,5-6: rewrite !count_writes_app;
    by_cases; rewrite ?count_writes_nil, ?count_writes_one;
    rewrite ?String.eqb_refl;
    rewrite ?eqb_false_of_neq by path_neq; reflexivity.
  1-2: intros H; by_cases; try lra; cbn [app fold_left fst snd];
    rewrite ?read_double_insert_ne by path_neq;
    apply read_double_insert.
  1-2: by_cases; cbn [app fold_left fst snd];
    rewrite ?read_double_insert_ne by path_neq; reflexivity.
  intros n w2.
  destruct (run_ticks_bound env this n w2) as (w3 & l2 & Hrun & Hw2 & Hl & _ & _).
  exists w3, l2. do 2 (split; [assumption |]).
  repeat split; apply count_writes_absent; rewrite Hl;
    intros Hin; apply in_concat_repeat in Hin; revert Hin;
    first [ by apply config_leaf_not_output
          | intros [E|[E|[E|[E|[]]]]]; discriminate ].
Qed.

End Effects.

(** ** What a tick reads *)

Section Inputs.
Variable env : Env.

(** The locals of a tick depend on the ten leaves it reads and on nothing
    else in the tree. *)
Lemma locals_of_inputs this (t1 t2 : gmap string value) :
  (forall p, In p (inputs this) -> leaf_value t1 p = leaf_value t2 p) ->
  locals env this t1 = locals env this t2.
Proof.
  intros H. unfold locals, read_double, read_string.
  rewrite !(H (config_leaf this _)) by in_list.
  rewrite !(H "/position/longitude-deg") by in_list.
  rewrite !(H "/position/latitude-deg") by in_list.
  rewrite !(H "/config/fcs/autopilot/L1-controller/period") by in_list.
  rewrite !(H "/velocity/groundspeed-ms") by in_list.
  rewrite !(H "/orientation/groundtrack-deg") by in_list.
  rewrite !(H "/config/fcs/autopilot/L1-controller/bank-limit-deg")
    by in_list.
  reflexivity.
Qed.

(** A write to a leaf that a tick does not read changes nothing in its
    locals. *)
Lemma locals_other_leaf this (t : gmap string value) p v :
  ~ In p (inputs this) ->
  locals env this (<[p := v]> t) = locals env this t.
Proof.
  intros H. apply locals_of_inputs. intros q Hq.
  apply leaf_value_insert_ne. intros ->. by apply H.
Qed.

(** Nor in what the tick leaves on the four leaves it writes. *)
Lemma tick_other_leaf this w p v :
  ~ In p (inputs this) ->
  forall q, In q outputs ->
    tree (publish (locals env this (tree (with_leaf p v w)))
                  (with_leaf p v w)) !! q
    = tree (publish (locals env this (tree w)) w) !! q.
Proof.
  intros H q Hq. cbn [with_leaf tree].
  rewrite (locals_other_leaf this (tree w) p v H).
  rewrite !tree_publish. cbn [tree].
  destruct Hq as [<-|[<-|[<-|[<-|[]]]]];
    rewrite !lookup_insert; repeat case_decide; congruence.
Qed.

(** C4 (as amended): no wind estimate is read by [update].  A write to any
    leaf that is not one of the ten leaves a tick reads, a wind estimate
    included, changes nothing in what the tick leaves on the four leaves it
    writes; the course written is the one for the radius-m leaf raised to
    10 when it is less, and so is the bank (stated for an L1 period other
    than 0). *)
Theorem radius_from_config_only (this : AuraCircleMgr) (w : world)
    (p : string) (v : value) :
  let l := locals env this (tree w) in
  let radius_m :=
    Rmax (read_double env (tree w) (config_leaf this "radius-m")) 10 in
  let course :=
    target_crs (t_ideal_crs l) (t_direction l) (t_dist_m l) radius_m in
  ~ In p (inputs this) ->
  exists w1 w2,
    update env (bound this) w = Some (true, w1)
    /\ update env (bound this) (with_leaf p v w) = Some (true, w2)
    /\ (forall q, In q outputs -> tree w2 !! q = tree w1 !! q)
    /\ read_double env (tree w1)
                   "/autopilot/settings/target-groundtrack-deg" = course
    /\ (t_L1_period l <> 0 ->
        read_double env (tree w1) "/autopilot/settings/target-roll-deg"
        = limit_bank
            (bank_of_accel
               (ideal_accel (t_direction l) (t_gs_mps l) radius_m
                + track_accel (t_L1_period l) (t_gs_mps l)
                              (course_error (t_groundtrack l) course)))
            (t_bank_limit_deg l)).
Proof.
  intros l radius_m course Hp.
  exists (publish l w),
         (publish (locals env this (tree (with_leaf p v w)))
                  (with_leaf p v w)).
  split; [apply update_bound |]. split; [apply update_bound |].
  split; [by apply tick_other_leaf |].
  rewrite published_course, published_roll.
  unfold course, radius_m. rewrite <- clamp_radius_max.
  split; [reflexivity | intros _; reflexivity].
Qed.

(** Writing the ground track leaf changes the ground track of the tick
    and what is computed from it, and nothing else. *)
Lemma locals_with_groundtrack this (t : gmap string value) g :
  let l := locals env this t in
  let l' := locals env this (<["/orientation/groundtrack-deg" := VDouble g]> t) in
  t_target_crs l' = t_target_crs l
  /\ t_course_error l' = course_error g (t_target_crs l)
  /\ t_target_bank_deg l'
     = limit_bank
         (bank_of_accel
            (t_ideal_accel l
             + track_accel (t_L1_period l) (t_gs_mps l)
                           (course_error g (t_target_crs l))))
         (t_bank_limit_deg l).
Proof.
  intros l l'. subst l l'. unfold locals.
  cbn [t_target_crs t_course_error t_target_bank_deg t_ideal_accel
       t_L1_period t_gs_mps t_bank_limit_deg].
  rewrite !read_double_insert. cbn [as_double].
  rewrite !read_string_insert_ne by path_neq.
  rewrite !read_double_insert_ne by path_neq.
  repeat split; reflexivity.
Qed.

(** C9 (as amended): with a target course of 1 (and an L1 period other
    than 0), a ground track of 359 and a ground track of -1 both give a
    course error of -2, and the two ticks write the same bank, the one of a
    course error of -2, when nothing else differs; a ground track from
    -539 to 541 gives a course error in [-180, 180], both ends
    included. *)
Theorem course_wrap (this : AuraCircleMgr) (w : world) :
  let l := locals env this (tree w) in
  let at_track g :=
    with_leaf "/orientation/groundtrack-deg" (VDouble g) w in
  let bank :=
    limit_bank
      (bank_of_accel
         (ideal_accel (t_direction l) (t_gs_mps l) (t_radius_m l)
          + track_accel (t_L1_period l) (t_gs_mps l) (-2)))
      (t_bank_limit_deg l) in
  t_target_crs l = 1 ->
  t_L1_period l <> 0 ->
  t_course_error (locals env this (tree (at_track 359))) = -2
  /\ t_course_error (locals env this (tree (at_track (-1)))) = -2
  /\ (exists wa' wb',
        update env (bound this) (at_track 359) = Some (true, wa')
        /\ update env (bound this) (at_track (-1)) = Some (true, wb')
        /\ read_double env (tree wa') "/autopilot/settings/target-roll-deg"
           = bank
        /\ read_double env (tree wb') "/autopilot/settings/target-roll-deg"
           = bank)
  /\ forall g, -539 <= g <= 541 ->
       -180 <= t_course_error (locals env this (tree (at_track g))) <= 180.
Proof.
  intros l at_track bank H1 _.
  assert (Wa : course_error 359 1 = -2)
    by (unfold course_error; by_cases; lra).
  assert (Wb : course_error (-1) 1 = -2)
    by (unfold course_error; by_cases; lra).
  destruct (locals_with_groundtrack this (tree w) 359) as (_ & Ea & Ba).
  destruct (locals_with_groundtrack this (tree w) (-1)) as (_ & Eb & Bb).
  fold l in Ea, Eb, Ba, Bb.
  rewrite H1 in Ea, Eb, Ba, Bb.
  rewrite Wa in Ea, Ba. rewrite Wb in Eb, Bb.
  split; [exact Ea |]. split; [exact Eb |].
  split.
  { do 2 eexists. split; [apply update_bound |].
    split; [apply update_bound |].
    rewrite !published_roll. unfold at_track. cbn [with_leaf tree].
    rewrite Ba, Bb. split; reflexivity. }
  intros g Hg.
  destruct (locals_with_groundtrack this (tree w) g) as (_ & Eg & _).
  fold l in Eg. unfold at_track. cbn [with_leaf tree].
  rewrite Eg, H1. apply course_error_range. lra.
Qed.

End Inputs.

(** C4, refuted as stated: there is no leaf outside the ten a tick reads,
    a wind estimate or any other, and no value written to it, that changes
    what [update] leaves on one of the four leaves it writes. *)
Lemma wind_biases_radius_refuted :
  ~ exists (env : Env) (this : AuraCircleMgr) (w : world)
           (wind_leaf : string) (wind : value) (w1 w2 : world),
      ~ In wind_leaf (inputs this)
      /\ update env (bound this) w = Some (true, w1)
      /\ update env (bound this) (with_leaf wind_leaf wind w)
         = Some (true, w2)
      /\ exists q, In q outputs /\ tree w2 !! q <> tree w1 !! q.
Proof.
  intros (env & this & w & p & v & w1 & w2 & Hp & H1 & H2 & q & Hq & H).
  rewrite update_bound in H1, H2.
  injection H1 as <-. injection H2 as <-.
  apply H. by apply tick_other_leaf.
Qed.

Section BindTuning.
Variable env : Env.

Lemma read_double_after_bind this w w1 :
  (forall p, leaf_value (tree w1) p
             = leaf_value (written (bind_writes env this (tree w))
                                   (tree w)) p) ->
  forall p, read_double env (tree w1) p
            = read_double env (written (bind_writes env this (tree w))
                                       (tree w)) p.
Proof. intros H p. unfold read_double. by rewrite H. Qed.

(** [bind] leaves a bank limit and an L1 period of at least 0.1. *)
Lemma bind_tuning_floor this w :
  exists w1,
    bind env this w = Some (true, bound this, w1)
    /\ 0.1 <= read_double env (tree w1)
                "/config/fcs/autopilot/L1-controller/bank-limit-deg"
    /\ 0.1 <= read_double env (tree w1)
                "/config/fcs/autopilot/L1-controller/period".
Proof.
  destruct (bind_bound env this w) as (w1 & Hb & _ & _ & Ht).
  exists w1. split; [exact Hb |].
  rewrite !(read_double_after_bind this w w1 Ht).
  unfold bind_writes, written.
  split; by_cases; cbn [app fold_left fst snd];
    rewrite ?read_double_insert;
    rewrite ?read_double_insert_ne by path_neq;
    rewrite ?read_double_insert; cbn [as_double]; lra.
Qed.

(** X6: the first tick after [bind], in the world [bind] leaves, writes a
    bank within the bank limit, whatever the tree held before [bind]. *)
Lemma first_tick_bank_in_limit this w :
  exists w1 w2,
    bind env this w = Some (true, bound this, w1)
    /\ update env (bound this) w1 = Some (true, w2)
    /\ - read_double env (tree w1)
           "/config/fcs/autopilot/L1-controller/bank-limit-deg"
       <= read_double env (tree w2) "/autopilot/settings/target-roll-deg"
       <= read_double env (tree w1)
            "/config/fcs/autopilot/L1-controller/bank-limit-deg".
Proof.
  destruct (bind_tuning_floor this w) as (w1 & Hb & HL & _).
  exists w1. eexists. split; [exact Hb |].
  split; [apply update_bound |].
  rewrite published_roll. apply limit_bank_range. lra.
Qed.

End BindTuning.


(** ** The sample worlds *)

Section Samples.
Variable env : Env.

Lemma read_string_insert (t : gmap string value) n v :
  read_string env (<[n := v]> t) n = as_string env v.
Proof. unfold read_string. by rewrite leaf_value_insert_eq. Qed.

Lemma sample_reads d r g v L b :
  let t := tree (sample_world d r g v L b) in
  read_string env t (config_leaf loiter "direction") = d
  /\ read_double env t (config_leaf loiter "radius-m") = r
  /\ read_double env t "/orientation/groundtrack-deg" = g
  /\ read_double env t "/velocity/groundspeed-ms" = v
  /\ read_double env t "/config/fcs/autopilot/L1-controller/period" = L
  /\ read_double env t "/config/fcs/autopilot/L1-controller/bank-limit-deg"
     = b.
Proof.
  unfold sample_world, with_leaf; cbn [tree].
  repeat split;
    rewrite ?read_double_insert_ne by path_neq;
    first [apply read_string_insert | apply read_double_insert].
Qed.

End Samples.

(** The locals of a tick of [loiter] in a sample world, when the geodesic
    helper answers [(c, dist)]. *)
Lemma sample_locals c dist d r g v L b :
  let l := locals (fixed_env c dist) loiter
                  (tree (sample_world d r g v L b)) in
  t_direction l = direction_of d
  /\ t_course_deg l = c
  /\ t_dist_m l = dist
  /\ t_radius_m l = clamp_radius r
  /\ t_groundtrack l = g
  /\ t_gs_mps l = v
  /\ t_bank_limit_deg l = b.
Proof.
  destruct (sample_reads (fixed_env c dist) d r g v L b)
    as (Hd & Hr & Hg & Hv & HL & Hb).
  intros l. subst l. unfold locals.
  cbn [t_direction t_course_deg t_dist_m t_radius_m t_groundtrack
       t_gs_mps t_bank_limit_deg].
  rewrite Hd, Hr, Hg, Hv, Hb. repeat split; reflexivity.
Qed.

(** The tuning of the sample world: a period of 25 and a bank limit of 20. *)
Lemma sample_tuning c dist d r g v L b :
  t_L1_period (locals (fixed_env c dist) loiter
                 (tree (sample_world d r g v L b))) = L
  /\ t_bank_limit_deg (locals (fixed_env c dist) loiter
                         (tree (sample_world d r g v L b))) = b.
Proof.
  destruct (sample_reads (fixed_env c dist) d r g v L b)
    as (_ & _ & _ & _ & HL & Hb).
  split; assumption.
Qed.

Lemma sample_ideal_crs c dist d r g v L b :
  t_ideal_crs (locals (fixed_env c dist) loiter
                      (tree (sample_world d r g v L b)))
  = ideal_crs c (direction_of d).
Proof.
  destruct (sample_locals c dist d r g v L b) as (Hd & Hc & _).
  rewrite locals_ideal_crs. cbv zeta. by rewrite Hd, Hc.
Qed.

Lemma sample_target_crs c dist d r g v L b :
  t_target_crs (locals (fixed_env c dist) loiter
                       (tree (sample_world d r g v L b)))
  = target_crs (ideal_crs c (direction_of d)) (direction_of d) dist
               (clamp_radius r).
Proof.
  destruct (sample_locals c dist d r g v L b)
    as (Hd & Hc & Hdist & Hr & _).
  rewrite locals_target_crs, locals_ideal_crs. cbv zeta.
  by rewrite Hd, Hc, Hdist, Hr.
Qed.

Ltac evaluate :=
  unfold target_crs, ideal_crs, wrap_course, clamp_radius, course_error,
    limit_bank, eta_sec, one_tenth, direction_of;
  cbn [String.eqb Ascii.eqb Bool.eqb];
  by_cases; lra.

(** ** The properties at sample inputs *)

(** A bank limit of 20 degrees is not negative, an L1 period of 25 is not
    0, and the bank written in that tick is within the limit. *)
Lemma bank_within_limit_witness :
  (0 <= read_double (fixed_env 180 120)
          (tree (sample_world "left" 100 270 20 25 20))
          "/config/fcs/autopilot/L1-controller/bank-limit-deg"
   /\ read_double (fixed_env 180 120)
        (tree (sample_world "left" 100 270 20 25 20))
        "/config/fcs/autopilot/L1-controller/period" <> 0)
  /\ exists w',
       update (fixed_env 180 120) (bound loiter)
              (sample_world "left" 100 270 20 25 20) = Some (true, w')
       /\ - read_double (fixed_env 180 120)
              (tree (sample_world "left" 100 270 20 25 20))
              "/config/fcs/autopilot/L1-controller/bank-limit-deg"
          <= read_double (fixed_env 180 120) (tree w')
                         "/autopilot/settings/target-roll-deg"
          <= read_double (fixed_env 180 120)
               (tree (sample_world "left" 100 270 20 25 20))
               "/config/fcs/autopilot/L1-controller/bank-limit-deg".
Proof.
  destruct (sample_reads (fixed_env 180 120) "left" 100 270 20 25 20)
    as (_ & _ & _ & _ & HL & Hb).
  assert (H : 0 <= read_double (fixed_env 180 120)
                     (tree (sample_world "left" 100 270 20 25 20))
                     "/config/fcs/autopilot/L1-controller/bank-limit-deg")
    by (rewrite Hb; lra).
  assert (HP : read_double (fixed_env 180 120)
                 (tree (sample_world "left" 100 270 20 25 20))
                 "/config/fcs/autopilot/L1-controller/period" <> 0)
    by (rewrite HL; lra).
  split; [split; [exact H | exact HP] |].
  exact (bank_within_limit (fixed_env 180 120) loiter
           (sample_world "left" 100 270 20 25 20) H HP).
Defined.

(** C1, refuted as stated: with the bank limit leaf at -5 the tick writes a
    bank of -5, and no number lies between 5 and -5. *)
Lemma bank_limit_negative_cex :
  read_double (fixed_env 180 120)
    (tree (sample_world "left" 100 270 20 25 (-5)))
    "/config/fcs/autopilot/L1-controller/bank-limit-deg" = -5
  /\ exists w',
       update (fixed_env 180 120) (bound loiter)
              (sample_world "left" 100 270 20 25 (-5)) = Some (true, w')
       /\ read_double (fixed_env 180 120) (tree w')
                      "/autopilot/settings/target-roll-deg" = -5
       /\ ~ (- (-5)
             <= read_double (fixed_env 180 120) (tree w')
                            "/autopilot/settings/target-roll-deg"
             <= -5).
Proof.
  destruct (sample_reads (fixed_env 180 120) "left" 100 270 20 25 (-5))
    as (_ & _ & _ & _ & _ & HL).
  split; [exact HL |].
  destruct (bank_negative_limit (fixed_env 180 120) loiter
              (sample_world "left" 100 270 20 25 (-5)))
    as (w' & Hu & Hr).
  { rewrite HL. lra. }
  exists w'. split; [exact Hu |]. rewrite Hr, HL.
  split; [reflexivity | lra].
Qed.

(** A bearing of 180 and a distance of 120 m meet the conditions, and the
    course written is in [0, 360]. *)
Lemma target_course_range_witness :
  (0 <= t_course_deg (locals (fixed_env 180 120) loiter
                        (tree (sample_world "left" 100 270 20 25 20))) < 360
   /\ 0 <= t_dist_m (locals (fixed_env 180 120) loiter
                       (tree (sample_world "left" 100 270 20 25 20))))
  /\ exists w',
       update (fixed_env 180 120) (bound loiter)
              (sample_world "left" 100 270 20 25 20) = Some (true, w')
       /\ 0 <= read_double (fixed_env 180 120) (tree w')
                 "/autopilot/settings/target-groundtrack-deg" <= 360.
Proof.
  destruct (sample_locals 180 120 "left" 100 270 20 25 20)
    as (_ & Hc & Hd & _).
  assert (H1 : 0 <= t_course_deg (locals (fixed_env 180 120) loiter
                  (tree (sample_world "left" 100 270 20 25 20))) < 360)
    by (rewrite Hc; lra).
  assert (H2 : 0 <= t_dist_m (locals (fixed_env 180 120) loiter
                  (tree (sample_world "left" 100 270 20 25 20))))
    by (rewrite Hd; lra).
  split; [split; [exact H1 | exact H2] |].
  exact (target_course_range (fixed_env 180 120) loiter
           (sample_world "left" 100 270 20 25 20) H1 H2).
Defined.

(** C2, refuted as stated: with the centre due west (bearing 270), the
    vehicle on a left circle of 100 m at 100 m from the centre, the course
    written is 360, which is not below 360. *)
Lemma target_course_360_cex :
  (0 <= t_course_deg (locals (fixed_env 270 100) loiter
                        (tree (sample_world "left" 100 0 20 25 20))) < 360
   /\ 0 <= t_dist_m (locals (fixed_env 270 100) loiter
                       (tree (sample_world "left" 100 0 20 25 20))))
  /\ exists w',
       update (fixed_env 270 100) (bound loiter)
              (sample_world "left" 100 0 20 25 20) = Some (true, w')
       /\ read_double (fixed_env 270 100) (tree w')
                      "/autopilot/settings/target-groundtrack-deg" = 360
       /\ ~ (0 <= read_double (fixed_env 270 100) (tree w')
                    "/autopilot/settings/target-groundtrack-deg" < 360).
Proof.
  destruct (sample_locals 270 100 "left" 100 0 20 25 20)
    as (_ & Hc & Hd & _).
  rewrite Hc, Hd. split; [lra |].
  eexists. split; [apply update_bound |].
  rewrite published_course, sample_target_crs.
  assert (H : target_crs (ideal_crs 270 (direction_of "left"))
                (direction_of "left") 100 (clamp_radius 100) = 360)
    by evaluate.
  rewrite H. split; [reflexivity | lra].
Qed.

(** On a left circle of 150 m, at 150 m from the centre that lies due south,
    flying west at 25 m/s with an L1 period of 25 and a bank limit of 20:
    the steady state. *)
Lemma steady_state_circle_witness :
  (t_dist_m (locals (fixed_env 180 150) loiter
               (tree (sample_world "left" 150 270 25 25 20)))
   = t_radius_m (locals (fixed_env 180 150) loiter
                   (tree (sample_world "left" 150 270 25 25 20)))
   /\ t_groundtrack (locals (fixed_env 180 150) loiter
                       (tree (sample_world "left" 150 270 25 25 20)))
      = t_ideal_crs (locals (fixed_env 180 150) loiter
                       (tree (sample_world "left" 150 270 25 25 20)))
   /\ 0 < t_gs_mps (locals (fixed_env 180 150) loiter
                      (tree (sample_world "left" 150 270 25 25 20)))
   /\ t_L1_period (locals (fixed_env 180 150) loiter
                     (tree (sample_world "left" 150 270 25 25 20))) <> 0)
  /\ t_accel (locals (fixed_env 180 150) loiter
                (tree (sample_world "left" 150 270 25 25 20))) = 0
  /\ exists w',
       update (fixed_env 180 150) (bound loiter)
              (sample_world "left" 150 270 25 25 20) = Some (true, w')
       /\ read_double (fixed_env 180 150) (tree w')
                      "/autopilot/settings/target-roll-deg"
          = limit_bank (steady_bank_deg 1 25 150) 20.
Proof.
  destruct (sample_locals 180 150 "left" 150 270 25 25 20)
    as (Hdir & _ & Hd & Hr & Hg & Hv & Hb).
  destruct (sample_tuning 180 150 "left" 150 270 25 25 20) as (HL & _).
  pose proof (sample_ideal_crs 180 150 "left" 150 270 25 25 20) as Hi.
  assert (Hr' : clamp_radius 150 = 150) by evaluate.
  assert (Hdir' : direction_of "left" = 1) by reflexivity.
  assert (H1 : t_dist_m (locals (fixed_env 180 150) loiter
                 (tree (sample_world "left" 150 270 25 25 20)))
               = t_radius_m (locals (fixed_env 180 150) loiter
                   (tree (sample_world "left" 150 270 25 25 20))))
    by (rewrite Hd, Hr, Hr'; reflexivity).
  assert (H2 : t_groundtrack (locals (fixed_env 180 150) loiter
                 (tree (sample_world "left" 150 270 25 25 20)))
               = t_ideal_crs (locals (fixed_env 180 150) loiter
                   (tree (sample_world "left" 150 270 25 25 20))))
    by (rewrite Hg, Hi; evaluate).
  assert (H3 : 0 < t_gs_mps (locals (fixed_env 180 150) loiter
                 (tree (sample_world "left" 150 270 25 25 20))))
    by (rewrite Hv; lra).
  assert (H4 : t_L1_period (locals (fixed_env 180 150) loiter
                 (tree (sample_world "left" 150 270 25 25 20))) <> 0)
    by (rewrite HL; lra).
  split; [split; [exact H1 | split; [exact H2 | split; [exact H3 | exact H4]]] |].
  destruct (steady_state_circle (fixed_env 180 150) loiter
              (sample_world "left" 150 270 25 25 20) H1 H2 H3 H4)
    as (Hacc & _ & w' & Hu & Hroll & _).
  split; [exact Hacc |].
  exists w'. split; [exact Hu |].
  rewrite Hroll, Hdir, Hdir', Hv, Hr, Hr', Hb. reflexivity.
Defined.

(** C3, refuted as stated: in the same steady state with an L1 period of 0
    the source divides by 0, and the acceleration that answers the course
    error is 0 times an infinity: not a number, and not 0. *)
Lemma steady_state_zero_period_cex :
  (t_dist_m zero_period_tick = t_radius_m zero_period_tick
   /\ t_groundtrack zero_period_tick = t_ideal_crs zero_period_tick
   /\ 0 < t_gs_mps zero_period_tick)
  /\ t_L1_period zero_period_tick = 0
  /\ track_accel_ieee (t_L1_period zero_period_tick)
                      (t_gs_mps zero_period_tick)
                      (t_course_error zero_period_tick) = NotANumber
  /\ track_accel_ieee (t_L1_period zero_period_tick)
                      (t_gs_mps zero_period_tick)
                      (t_course_error zero_period_tick) <> Finite 0.
Proof.
  unfold zero_period_tick.
  destruct (sample_locals 180 150 "left" 150 270 25 0 20)
    as (Hdir & _ & Hd & Hr & Hg & Hv & Hb).
  destruct (sample_tuning 180 150 "left" 150 270 25 0 20) as (HL & _).
  pose proof (sample_ideal_crs 180 150 "left" 150 270 25 0 20) as Hi.
  pose proof (sample_target_crs 180 150 "left" 150 270 25 0 20) as Ht.
  assert (Hr' : clamp_radius 150 = 150) by evaluate.
  assert (Hi' : ideal_crs 180 (direction_of "left") = 270) by evaluate.
  assert (Ht' : target_crs (ideal_crs 180 (direction_of "left"))
                  (direction_of "left") 150 (clamp_radius 150) = 270)
    by evaluate.
  assert (He : t_course_error (locals (fixed_env 180 150) loiter
                  (tree (sample_world "left" 150 270 25 0 20))) = 0).
  { rewrite locals_course_error. cbv zeta. rewrite Hg, Ht, Ht'.
    apply course_error_same. }
  rewrite He, HL, Hd, Hr, Hg, Hi, Hv, Hr', Hi'.
  rewrite track_accel_ieee_zero_period.
  split; [split; [reflexivity | split; [reflexivity | lra]] |].
  split; [reflexivity |]. split; [reflexivity | discriminate].
Qed.

(** A leaf that would hold a wind estimate is not one of the leaves a tick
    reads; with a wind of 30 on it the tick writes what it writes without,
    a course of 252 for a radius of 100. *)
Lemma radius_from_config_only_witness :
  ~ In "/filters/wind-est/wind-speed-kt" (inputs loiter)
  /\ exists w1 w2,
       update (fixed_env 180 120) (bound loiter)
              (sample_world "left" 100 270 20 25 20) = Some (true, w1)
       /\ update (fixed_env 180 120) (bound loiter)
            (with_leaf "/filters/wind-est/wind-speed-kt" (VDouble 30)
               (sample_world "left" 100 270 20 25 20)) = Some (true, w2)
       /\ (forall q, In q outputs -> tree w2 !! q = tree w1 !! q)
       /\ read_double (fixed_env 180 120) (tree w1)
                      "/autopilot/settings/target-groundtrack-deg" = 252.
Proof.
  assert (H : ~ In "/filters/wind-est/wind-speed-kt" (inputs loiter)).
  { intros Hin. cbn [inputs In] in Hin.
    destruct Hin as [E|[E|[E|[E|[E|[E|[E|[E|[E|[E|[]]]]]]]]]]];
      revert E; path_neq. }
  split; [exact H |].
  destruct (radius_from_config_only (fixed_env 180 120) loiter
              (sample_world "left" 100 270 20 25 20)
              "/filters/wind-est/wind-speed-kt" (VDouble 30) H)
    as (w1 & w2 & H1 & H2 & Hout & Hc & _).
  exists w1, w2. split; [exact H1 |]. split; [exact H2 |].
  split; [exact Hout |].
  rewrite Hc.
  destruct (sample_locals 180 120 "left" 100 270 20 25 20)
    as (Hdir & _ & Hd & _).
  destruct (sample_reads (fixed_env 180 120) "left" 100 270 20 25 20)
    as (_ & Hr & _).
  rewrite (sample_ideal_crs 180 120 "left" 100 270 20 25 20), Hdir, Hd, Hr.
  rewrite <- clamp_radius_max. evaluate.
Defined.

(** 500 m from the centre of a 100 m circle, centre due east: the course
    written is the bearing, 90. *)
Lemma far_field_witness :
  (0 <= t_course_deg (locals (fixed_env 90 500) loiter
                        (tree (sample_world "left" 100 270 20 25 20))) < 360
   /\ 2 * t_radius_m (locals (fixed_env 90 500) loiter
                        (tree (sample_world "left" 100 270 20 25 20)))
      <= t_dist_m (locals (fixed_env 90 500) loiter
                     (tree (sample_world "left" 100 270 20 25 20))))
  /\ exists w',
       update (fixed_env 90 500) (bound loiter)
              (sample_world "left" 100 270 20 25 20) = Some (true, w')
       /\ same_course 1e-9
            (read_double (fixed_env 90 500) (tree w')
                         "/autopilot/settings/target-groundtrack-deg") 90.
Proof.
  destruct (sample_locals 90 500 "left" 100 270 20 25 20)
    as (Hdir & Hc & Hd & Hr & _).
  assert (H1 : 0 <= t_course_deg (locals (fixed_env 90 500) loiter
                  (tree (sample_world "left" 100 270 20 25 20))) < 360)
    by (rewrite Hc; lra).
  assert (H2 : 2 * t_radius_m (locals (fixed_env 90 500) loiter
                  (tree (sample_world "left" 100 270 20 25 20)))
               <= t_dist_m (locals (fixed_env 90 500) loiter
                    (tree (sample_world "left" 100 270 20 25 20))))
    by (rewrite Hd, Hr; evaluate).
  split; [split; [exact H1 | exact H2] |].
  destruct (far_field (fixed_env 90 500) loiter
              (sample_world "left" 100 270 20 25 20) H1 H2)
    as (w' & Hu & Hsame & _).
  exists w'. split; [exact Hu |].
  rewrite Hc in Hsame. exact Hsame.
Defined.

(** C5, refuted as stated: 500 m due south of the centre of a 100 m right
    circle (bearing 0), the course written is 360 and not the bearing. *)
Lemma far_field_north_right_cex :
  (0 <= t_course_deg (locals (fixed_env 0 500) loiter
                        (tree (sample_world "right" 100 270 20 25 20))) < 360
   /\ 2 * t_radius_m (locals (fixed_env 0 500) loiter
                        (tree (sample_world "right" 100 270 20 25 20)))
      <= t_dist_m (locals (fixed_env 0 500) loiter
                     (tree (sample_world "right" 100 270 20 25 20))))
  /\ exists w',
       update (fixed_env 0 500) (bound loiter)
              (sample_world "right" 100 270 20 25 20) = Some (true, w')
       /\ read_double (fixed_env 0 500) (tree w')
                      "/autopilot/settings/target-groundtrack-deg" = 360
       /\ read_double (fixed_env 0 500) (tree w')
                      "/autopilot/settings/target-groundtrack-deg"
          <> t_course_deg (locals (fixed_env 0 500) loiter
                             (tree (sample_world "right" 100 270 20 25 20))).
Proof.
  destruct (sample_locals 0 500 "right" 100 270 20 25 20)
    as (_ & Hc & Hd & Hr & _).
  rewrite Hc, Hd, Hr. split; [split; [lra | evaluate] |].
  eexists. split; [apply update_bound |].
  rewrite published_course, sample_target_crs.
  assert (H : target_crs (ideal_crs 0 (direction_of "right"))
                (direction_of "right") 500 (clamp_radius 100) = 360)
    by evaluate.
  rewrite H. split; [reflexivity | lra].
Qed.

(** At 20 m/s and 120 m from the centre, the distance written is 120 and
    the time written is 120 / 20, up to the narrowing. *)
Lemma eta_published_witness :
  Rabs 120 <= 1e30
  /\ exists w',
       update (fixed_env 180 120) (bound loiter)
              (sample_world "left" 100 270 20 25 20) = Some (true, w')
       /\ read_double (fixed_env 180 120) (tree w')
                      "/mission/route/wp-dist-m" = narrow 120
       /\ Rabs (read_double (fixed_env 180 120) (tree w')
                            "/mission/route/wp-eta-sec" - 120 / 20)
          <= Rabs (120 / 20) * powerRZ 2 (-23) + powerRZ 2 (-149).
Proof.
  assert (H : Rabs 120 <= 1e30) by (rewrite Rabs_pos_eq; lra).
  split; [exact H |].
  destruct (eta_published (fixed_env 180 120) loiter
              (sample_world "left" 100 270 20 25 20) H)
    as (w' & Hu & Hdist & _ & Hfast & _).
  destruct (sample_reads (fixed_env 180 120) "left" 100 270 20 25 20)
    as (_ & _ & _ & Hv & _).
  exists w'. split; [exact Hu |]. split; [exact Hdist |].
  rewrite Hv in Hfast. apply Hfast. unfold one_tenth. lra.
Defined.

(** C6, refuted as stated: 120.1 m from the centre at 20 m/s, wp-dist-m
    receives 15741747 / 2^17 (120.09999847...), the [float] nearest to the
    distance, and wp-eta-sec receives 6296699 / 2^20 (6.00500011...), the
    [float] nearest to 120.1 / 20; neither is the number claimed. *)
Lemma eta_narrowed_cex :
  t_dist_m (locals (fixed_env 180 120.1) loiter
              (tree (sample_world "left" 100 270 20 25 20))) = 120.1
  /\ t_gs_mps (locals (fixed_env 180 120.1) loiter
                 (tree (sample_world "left" 100 270 20 25 20))) = 20
  /\ exists w',
       update (fixed_env 180 120.1) (bound loiter)
              (sample_world "left" 100 270 20 25 20) = Some (true, w')
       /\ read_double (fixed_env 180 120.1) (tree w')
                      "/mission/route/wp-dist-m" = 15741747 / 131072
       /\ read_double (fixed_env 180 120.1) (tree w')
                      "/mission/route/wp-dist-m" <> 120.1
       /\ read_double (fixed_env 180 120.1) (tree w')
                      "/mission/route/wp-eta-sec" = 6296699 / 1048576
       /\ read_double (fixed_env 180 120.1) (tree w')
                      "/mission/route/wp-eta-sec" <> 120.1 / 20.
Proof.
  destruct (sample_locals 180 120.1 "left" 100 270 20 25 20)
    as (_ & _ & Hd & _ & _ & Hv & _).
  split; [exact Hd |]. split; [exact Hv |].
  eexists. split; [apply update_bound |].
  rewrite published_dist, published_eta, Hd, Hv.
  rewrite eta_sec_moving by (unfold one_tenth; lra).
  rewrite narrow_120_1, narrow_6_005.
  repeat split; lra.
Qed.

(** At 0.05 m/s the time written is 0. *)
Lemma slow_vehicle_eta :
  exists w',
    update (fixed_env 180 120) (bound loiter)
           (sample_world "left" 100 270 0.05 25 20) = Some (true, w')
    /\ read_double (fixed_env 180 120) (tree w') "/mission/route/wp-eta-sec"
       = 0.
Proof.
  destruct (sample_locals 180 120 "left" 100 270 0.05 25 20)
    as (_ & _ & Hd & _ & _ & Hv & _).
  eexists. split; [apply update_bound |].
  rewrite published_eta, Hd, Hv.
  rewrite eta_sec_slow by (unfold one_tenth; lra). apply narrow_0.
Qed.

(** With "banana" on the direction leaf the tick circles left: 120 m from
    the centre of a 100 m circle that lies due south it writes a course of
    252, and prints nothing. *)
Lemma direction_sign_witness :
  read_string (fixed_env 180 120)
    (tree (sample_world "banana" 100 270 20 25 20))
    (config_leaf loiter "direction") <> "right"
  /\ exists w',
       update (fixed_env 180 120) (bound loiter)
              (sample_world "banana" 100 270 20 25 20) = Some (true, w')
       /\ stdout w' = stdout (sample_world "banana" 100 270 20 25 20)
       /\ read_double (fixed_env 180 120) (tree w')
                      "/autopilot/settings/target-groundtrack-deg" = 252.
Proof.
  assert (H : read_string (fixed_env 180 120)
                (tree (sample_world "banana" 100 270 20 25 20))
                (config_leaf loiter "direction") <> "right").
  { destruct (sample_reads (fixed_env 180 120) "banana" 100 270 20 25 20)
      as (Hd & _). rewrite Hd. discriminate. }
  split; [exact H |].
  destruct (direction_sign (fixed_env 180 120) loiter
              (sample_world "banana" 100 270 20 25 20))
    as (_ & _ & _ & w' & Hu & Hout & _ & Hleft).
  destruct (Hleft H) as [Hc _].
  exists w'. split; [exact Hu |]. split; [exact Hout |].
  rewrite Hc.
  destruct (sample_locals 180 120 "banana" 100 270 20 25 20)
    as (_ & Hcrs & Hd & Hr & _).
  rewrite Hcrs, Hd, Hr. evaluate.
Defined.

(** A target course of 1: the centre at bearing 271, on the circle; the
    L1 period is 25. *)
Lemma course_wrap_witness :
  (t_target_crs (locals (fixed_env 271 100) loiter
                   (tree (sample_world "left" 100 0 20 25 20))) = 1
   /\ t_L1_period (locals (fixed_env 271 100) loiter
                     (tree (sample_world "left" 100 0 20 25 20))) <> 0)
  /\ t_course_error
       (locals (fixed_env 271 100) loiter
          (tree (with_leaf "/orientation/groundtrack-deg" (VDouble 359)
                   (sample_world "left" 100 0 20 25 20)))) = -2
  /\ t_course_error
       (locals (fixed_env 271 100) loiter
          (tree (with_leaf "/orientation/groundtrack-deg" (VDouble (-1))
                   (sample_world "left" 100 0 20 25 20)))) = -2
  /\ exists wa' wb',
       update (fixed_env 271 100) (bound loiter)
         (with_leaf "/orientation/groundtrack-deg" (VDouble 359)
            (sample_world "left" 100 0 20 25 20)) = Some (true, wa')
       /\ update (fixed_env 271 100) (bound loiter)
            (with_leaf "/orientation/groundtrack-deg" (VDouble (-1))
               (sample_world "left" 100 0 20 25 20)) = Some (true, wb')
       /\ read_double (fixed_env 271 100) (tree wa')
                      "/autopilot/settings/target-roll-deg"
          = read_double (fixed_env 271 100) (tree wb')
                        "/autopilot/settings/target-roll-deg".
Proof.
  assert (H : t_target_crs (locals (fixed_env 271 100) loiter
                (tree (sample_world "left" 100 0 20 25 20))) = 1)
    by (rewrite sample_target_crs; evaluate).
  destruct (sample_tuning 271 100 "left" 100 0 20 25 20) as (HL & _).
  assert (HP : t_L1_period (locals (fixed_env 271 100) loiter
                 (tree (sample_world "left" 100 0 20 25 20))) <> 0)
    by (rewrite HL; lra).
  split; [split; [exact H | exact HP] |].
  destruct (course_wrap (fixed_env 271 100) loiter
              (sample_world "left" 100 0 20 25 20) H HP)
    as (Ha & Hb & (wa' & wb' & Hua & Hub & Hra & Hrb) & _).
  split; [exact Ha |]. split; [exact Hb |].
  exists wa', wb'. split; [exact Hua |]. split; [exact Hub |].
  rewrite Hra, Hrb. reflexivity.
Defined.

(** C9, refuted as stated: with a target course of 1 and a ground track of
    -179 the difference is -180, which the strict test [< -180] keeps: the
    course error of the tick is -180, outside (-180, 180], and the bank
    written is the one of a course error of -180. *)
Lemma course_error_minus_180_cex :
  t_target_crs (locals (fixed_env 271 100) loiter
                  (tree (sample_world "left" 100 (-179) 20 25 20))) = 1
  /\ t_groundtrack (locals (fixed_env 271 100) loiter
                      (tree (sample_world "left" 100 (-179) 20 25 20)))
     = -179
  /\ t_course_error (locals (fixed_env 271 100) loiter
                       (tree (sample_world "left" 100 (-179) 20 25 20)))
     = -180
  /\ ~ (-180 < t_course_error
                 (locals (fixed_env 271 100) loiter
                    (tree (sample_world "left" 100 (-179) 20 25 20)))
        <= 180)
  /\ exists w',
       update (fixed_env 271 100) (bound loiter)
              (sample_world "left" 100 (-179) 20 25 20) = Some (true, w')
       /\ read_double (fixed_env 271 100) (tree w')
                      "/autopilot/settings/target-roll-deg"
          = limit_bank
              (bank_of_accel
                 (ideal_accel 1 20 100 + track_accel 25 20 (-180))) 20.
Proof.
  destruct (sample_locals 271 100 "left" 100 (-179) 20 25 20)
    as (Hdir & _ & Hd & Hr & Hg & Hv & Hb).
  destruct (sample_tuning 271 100 "left" 100 (-179) 20 25 20) as (HL & _).
  assert (Ht : t_target_crs (locals (fixed_env 271 100) loiter
                 (tree (sample_world "left" 100 (-179) 20 25 20))) = 1)
    by (rewrite sample_target_crs; evaluate).
  assert (He : t_course_error (locals (fixed_env 271 100) loiter
                 (tree (sample_world "left" 100 (-179) 20 25 20))) = -180).
  { rewrite locals_course_error. cbv zeta. rewrite Hg, Ht. evaluate. }
  assert (Hr' : clamp_radius 100 = 100) by evaluate.
  assert (Hdir' : direction_of "left" = 1) by reflexivity.
  split; [exact Ht |]. split; [exact Hg |]. split; [exact He |].
  split; [rewrite He; lra |].
  eexists. split; [apply update_bound |].
  rewrite published_roll, locals_target_bank_deg. cbv zeta.
  rewrite locals_ideal_accel, locals_accel. cbv zeta.
  rewrite He, Hdir, Hdir', Hv, Hr, Hr', HL, Hb. reflexivity.
Qed.

(** After one tick the radius leaf is what it was. *)
Lemma tick_frame_witness :
  exists w',
    run_ticks (fixed_env 180 120) 1 (bound loiter)
              (sample_world "left" 100 270 20 25 20) = Some (true, w')
    /\ tree w' !! config_leaf loiter "radius-m" = Some (VDouble 100)
    /\ tree w' !! "/filters/wind-est/wind-speed-kt" = None.
Proof.
  destruct (tick_frame (fixed_env 180 120) loiter 1
              (sample_world "left" 100 270 20 25 20))
    as (w' & l & Hrun & _ & _ & Hfr & _ & _ & _ & Hrad & _).
  exists w'. split; [exact Hrun |]. split.
  - rewrite Hrad. unfold sample_world, with_leaf; cbn [tree].
    rewrite lookup_insert_ne by path_neq. apply lookup_insert_eq.
  - rewrite Hfr.
    + unfold sample_world, with_leaf, empty_world; cbn [tree].
      rewrite !lookup_insert_ne by path_neq. apply lookup_empty.
    + intros [E|[E|[E|[E|[]]]]]; discriminate.
Defined.

(** The constructor, given the configuration path and the two overrides,
    builds the sample task with overrides and prints nothing. *)
Lemma loiter_overrides_constructed env w :
  AuraCircleMgr_new env
    [ ("config", VString "/task/circle");
      ("altitude-agl-ft", VDouble 200);
      ("speed-kt", VDouble 30) ] w
  = Some (loiter_overrides, w).
Proof. reflexivity. Qed.

(** An unknown parameter name is reported; an unknown direction is not. *)
Lemma constructor_reports_names_only env w :
  (exists this,
     AuraCircleMgr_new env [("direction", VString "banana")] w
     = Some (this, w) /\ _direction this = "banana")
  /\ exists this w',
       AuraCircleMgr_new env [("heading", VString "north")] w
       = Some (this, w')
       /\ stdout w'
          = (stdout w
             ++ ["Unknown circle task parameter: heading" +:+ newline])%list.
Proof.
  split.
  - eexists. split; reflexivity.
  - do 2 eexists. split; reflexivity.
Qed.

(** The overrides of the sample task are positive, and [bind] leaves them
    on the two leaves under the configuration path. *)
Lemma overrides_at_bind_witness :
  (_target_speed_kt loiter_overrides > 0
   /\ _target_agl_ft loiter_overrides > 0)
  /\ exists w1,
       bind (fixed_env 0 0) loiter_overrides empty_world
       = Some (true, bound loiter_overrides, w1)
       /\ read_double (fixed_env 0 0) (tree w1)
                      (config_leaf loiter_overrides "speed-kt") = 30
       /\ read_double (fixed_env 0 0) (tree w1)
                      (config_leaf loiter_overrides "altitude-agl-ft") = 200.
Proof.
  assert (Hs : _target_speed_kt loiter_overrides > 0)
    by (change (30 > 0); lra).
  assert (Ha : _target_agl_ft loiter_overrides > 0)
    by (change (200 > 0); lra).
  split; [split; [exact Hs | exact Ha] |].
  destruct (overrides_at_bind (fixed_env 0 0) loiter_overrides empty_world)
    as (w1 & l & Hb & _ & _ & _ & Hspeed & Hagl & _).
  exists w1. split; [exact Hb |].
  split; [exact (Hspeed Hs) | exact (Hagl Ha)].
Defined.

(** C7, refuted as stated: the task has a speed override of 30 and an
    altitude override of 200, and [bind] writes neither
    /autopilot/settings/target-speed-kt nor
    /autopilot/settings/target-agl-ft: both still read 0. *)
Lemma overrides_not_on_autopilot_cex :
  _target_speed_kt loiter_overrides = 30
  /\ _target_agl_ft loiter_overrides = 200
  /\ exists w1,
       bind (fixed_env 0 0) loiter_overrides empty_world
       = Some (true, bound loiter_overrides, w1)
       /\ count_writes "/autopilot/settings/target-speed-kt" (writes w1)
          = 0%nat
       /\ count_writes "/autopilot/settings/target-agl-ft" (writes w1)
          = 0%nat
       /\ read_double (fixed_env 0 0) (tree w1)
                      "/autopilot/settings/target-speed-kt" = 0
       /\ read_double (fixed_env 0 0) (tree w1)
                      "/autopilot/settings/target-agl-ft" = 0.
Proof.
  do 2 (split; [reflexivity |]).
  destruct (bind_bound (fixed_env 0 0) loiter_overrides empty_world)
    as (w1 & Hb & _ & Hw & Ht).
  exists w1. split; [exact Hb |].
  rewrite Hw. cbn [empty_world writes tree app].
  rewrite !(read_double_after_bind _ _ _ _ Ht).
  unfold bind_writes, written.
  repeat split.
  1-2: rewrite !count_writes_app;
    by_cases; rewrite ?count_writes_nil, ?count_writes_one;
    rewrite ?eqb_false_of_neq by path_neq; reflexivity.
  1-2: by_cases; cbn [app fold_left fst snd];
    rewrite ?read_double_insert_ne by path_neq;
    unfold read_double, leaf_value; cbn [empty_world tree];
    rewrite lookup_empty; reflexivity.
Qed.

(** ** The constructor *)

Section Constructor.
Variable env : Env.

Lemma world_eta w : World (tree w) (writes w) (stdout w) = w.
Proof. by destruct w. Qed.

(** One turn of the loop never fails and touches only the output. *)
Lemma ctor_child_runs p child w :
  exists p',
    ctor_child env p child w
    = Some (p', World (tree w) (writes w)
                      (stdout w ++ ctor_reports [child])%list).
Proof.
  destruct child as [name v]. unfold ctor_child, ctor_reports, known_parameter.
  cbn [List.filter fst map].
  destruct (String.eqb name "config");
    [cbn; rewrite app_nil_r, world_eta; eauto |].
  destruct (String.eqb name "direction");
    [cbn; rewrite app_nil_r, world_eta; eauto |].
  destruct (String.eqb name "radius-m");
    [cbn; rewrite app_nil_r, world_eta; eauto |].
  destruct (String.eqb name "altitude-agl-ft");
    [cbn; rewrite app_nil_r, world_eta; eauto |].
  destruct (String.eqb name "speed-kt");
    [cbn; rewrite app_nil_r, world_eta; eauto |].
  cbn. eauto.
Qed.

Lemma ctor_reports_cons child branch :
  ctor_reports (child :: branch)
  = (ctor_reports [child] ++ ctor_reports branch)%list.
Proof.
  unfold ctor_reports. cbn [List.filter].
  destruct (negb (known_parameter (fst child))); reflexivity.
Qed.

Lemma ctor_loop_runs branch : forall p w,
  exists p',
    ctor_loop env branch p w
    = Some (p', World (tree w) (writes w)
                      (stdout w ++ ctor_reports branch)%list).
Proof.
  induction branch as [|child branch IH]; intros p w.
  - exists p. cbn. by rewrite app_nil_r, world_eta.
  - cbn [ctor_loop]. unfold andThen.
    destruct (ctor_child_runs p child w) as (p1 & ->).
    destruct (IH p1 (World (tree w) (writes w)
                           (stdout w ++ ctor_reports [child])%list))
      as (p' & ->).
    exists p'. cbn [tree writes stdout].
    by rewrite (ctor_reports_cons child branch), app_assoc.
Qed.

(** X1: the constructor never fails and touches neither the tree nor the
    record of writes; it leaves every handle NULL, and prints one line for
    every child whose name it does not know, in the order of the children,
    and nothing else. *)
Theorem constructor_reports_unknown_names (branch : list (string * value))
    (w : world) :
  exists p,
    AuraCircleMgr_new env branch w
    = Some (unbound p,
            World (tree w) (writes w) (stdout w ++ ctor_reports branch)%list).
Proof.
  unfold AuraCircleMgr_new, andThen.
  destruct (ctor_loop_runs branch (Params "" "left" 100 0 0) w) as (p & ->).
  by exists p.
Qed.

(** What one turn of the loop does to the five parameters. *)
Lemma ctor_child_fields p name v w p' w' :
  ctor_child env p (name, v) w = Some (p', w') ->
  p_config_path p'
  = (if String.eqb name "config" then as_string env v else p_config_path p)
  /\ p_direction p'
     = (if String.eqb name "direction" then as_string env v
        else p_direction p)
  /\ p_radius_m p'
     = (if String.eqb name "radius-m" then as_double env v
        else p_radius_m p)
  /\ p_target_agl_ft p'
     = (if String.eqb name "altitude-agl-ft" then as_double env v
        else p_target_agl_ft p)
  /\ p_target_speed_kt p'
     = (if String.eqb name "speed-kt" then as_double env v
        else p_target_speed_kt p).
Proof.
  unfold ctor_child.
  destruct (String.eqb_spec name "config") as [->|];
    [cbn; intros [= <- _]; cbn; auto |].
  destruct (String.eqb_spec name "direction") as [->|];
    [cbn; intros [= <- _]; cbn; auto |].
  destruct (String.eqb_spec name "radius-m") as [->|];
    [cbn; intros [= <- _]; cbn; auto |].
  destruct (String.eqb_spec name "altitude-agl-ft") as [->|];
    [cbn; intros [= <- _]; cbn; auto |].
  destruct (String.eqb_spec name "speed-kt") as [->|];
    [cbn; intros [= <- _]; cbn; auto |].
  cbn. intros [= <- _]. auto.
Qed.


Lemma ctor_loop_fields branch : forall p w p' w',
  ctor_loop env branch p w = Some (p', w') ->
  p_config_path p'
  = pick (as_string env) (last_named "config" branch) (p_config_path p)
  /\ p_direction p'
     = pick (as_string env) (last_named "direction" branch) (p_direction p)
  /\ p_radius_m p'
     = pick (as_double env) (last_named "radius-m" branch) (p_radius_m p)
  /\ p_target_agl_ft p'
     = pick (as_double env) (last_named "altitude-agl-ft" branch)
            (p_target_agl_ft p)
  /\ p_target_speed_kt p'
     = pick (as_double env) (last_named "speed-kt" branch)
            (p_target_speed_kt p).
Proof.
  induction branch as [|[name v] branch IH]; intros p w p' w' H.
  - cbn in H. injection H as <- _. cbn. auto.
  - cbn [ctor_loop] in H. unfold andThen in H.
    destruct (ctor_child env p (name, v) w) as [[p1 w1]|] eqn:E;
      [| discriminate].
    apply ctor_child_fields in E. destruct E as (E1 & E2 & E3 & E4 & E5).
    apply IH in H. destruct H as (H1 & H2 & H3 & H4 & H5).
    cbn [last_named].
    rewrite H1, H2, H3, H4, H5, E1, E2, E3, E4, E5.
    repeat split;
      match goal with
      | |- context [last_named ?n branch] =>
          destruct (last_named n branch); cbn [pick];
          [reflexivity | destruct (String.eqb name n); reflexivity]
      end.
Qed.

End Constructor.

Section ConstructorResults.
Variable env : Env.

(** X2: each of the five task parameters is taken from the last child of
    the branch that bears its name, and keeps its default ("", "left", 100,
    0, 0) when no child does. *)
Theorem constructor_last_value_wins (branch : list (string * value))
    (w : world) :
  exists this w',
    AuraCircleMgr_new env branch w = Some (this, w')
    /\ config_path this
       = pick (as_string env) (last_named "config" branch) ""
    /\ _direction this
       = pick (as_string env) (last_named "direction" branch) "left"
    /\ _radius_m this
       = pick (as_double env) (last_named "radius-m" branch) 100
    /\ _target_agl_ft this
       = pick (as_double env) (last_named "altitude-agl-ft" branch) 0
    /\ _target_speed_kt this
       = pick (as_double env) (last_named "speed-kt" branch) 0.
Proof.
  unfold AuraCircleMgr_new, andThen.
  destruct (ctor_loop env branch (Params "" "left" 100 0 0) w)
    as [[p w']|] eqn:E.
  - apply ctor_loop_fields in E. exists (unbound p), w'.
    split; [reflexivity | exact E].
  - destruct (ctor_loop_runs env branch (Params "" "left" 100 0 0) w)
      as (p & H). congruence.
Qed.

(** X3: a manager that was constructed and not bound cannot be used:
    [update], [get_center], [set_direction] and [set_radius] all dereference
    a NULL handle. *)
Theorem unbound_manager_fails (branch : list (string * value)) (w : world)
    (direction : string) (radius_m : R) :
  (this <- AuraCircleMgr_new env branch;; update env this) w = None
  /\ (this <- AuraCircleMgr_new env branch;; get_center env this) w = None
  /\ (this <- AuraCircleMgr_new env branch;;
      set_direction this direction) w = None
  /\ (this <- AuraCircleMgr_new env branch;;
      set_radius this radius_m) w = None.
Proof.
  unfold AuraCircleMgr_new, andThen.
  destruct (ctor_loop_runs env branch (Params "" "left" 100 0 0) w)
    as (p & ->).
  repeat split; reflexivity.
Qed.

End ConstructorResults.

(** ** The steps of [bind] *)

Lemma lookup_ensure (t : gmap string value) p q :
  ensure p t !! q
  = match t !! q with
    | Some v => Some v
    | None => if decide (p = q) then Some VNone else None
    end.
Proof.
  unfold ensure. destruct (t !! p) eqn:E.
  - destruct (t !! q) eqn:F; [reflexivity |].
    destruct (decide (p = q)) as [->|]; [congruence | reflexivity].
  - rewrite lookup_insert. destruct (decide (p = q)) as [->|].
    + by rewrite E.
    + by destruct (t !! q).
Qed.

Lemma run_op_keeps_some (t : gmap string value) o q :
  is_Some (t !! q) -> is_Some (run_op t o !! q).
Proof.
  intros [v H]. destruct o as [p|p v']; cbn [run_op].
  - rewrite lookup_ensure, H. eauto.
  - rewrite lookup_insert. destruct (decide (p = q)); eauto.
Qed.

Lemma run_op_creates (t : gmap string value) o :
  is_Some (run_op t o !! op_leaf o).
Proof.
  destruct o as [p|p v]; cbn [run_op op_leaf].
  - rewrite lookup_ensure. destruct (t !! p); [eauto |].
    destruct (decide (p = p)); [eauto | done].
  - rewrite lookup_insert_eq. eauto.
Qed.

Lemma run_ops_keeps_some ops : forall (t : gmap string value) q,
  is_Some (t !! q) -> is_Some (run_ops ops t !! q).
Proof.
  induction ops as [|o ops IH]; intros t q H; [exact H |].
  cbn [run_ops fold_left]. fold (run_ops ops (run_op t o)).
  apply IH. by apply run_op_keeps_some.
Qed.

(** Every leaf named by a step is in the tree after the steps. *)
Lemma run_ops_creates ops : forall (t : gmap string value) q,
  In q (map op_leaf ops) -> is_Some (run_ops ops t !! q).
Proof.
  induction ops as [|o ops IH]; intros t q; [intros [] |].
  cbn [run_ops fold_left]. fold (run_ops ops (run_op t o)).
  intros [<-|H].
  - apply run_ops_keeps_some, run_op_creates.
  - by apply IH.
Qed.

(** A leaf no step names is not touched. *)
Lemma run_ops_other ops : forall (t : gmap string value) q,
  ~ In q (map op_leaf ops) -> run_ops ops t !! q = t !! q.
Proof.
  induction ops as [|o ops IH]; intros t q H; [reflexivity |].
  cbn [run_ops fold_left]. fold (run_ops ops (run_op t o)).
  rewrite IH by (intros Hin; apply H; right; exact Hin).
  assert (Hne : op_leaf o <> q) by (intros E; apply H; left; exact E).
  destruct o as [p|p v]; cbn [run_op op_leaf] in *.
  - rewrite lookup_ensure. destruct (t !! q); [reflexivity |].
    by destruct (decide (p = q)).
  - by rewrite lookup_insert_ne.
Qed.

(** A leaf that exists and is not written keeps what it holds. *)
Lemma run_ops_keeps ops : forall (t : gmap string value) q v,
  t !! q = Some v -> ~ In q (map fst (ops_writes ops)) ->
  run_ops ops t !! q = Some v.
Proof.
  induction ops as [|o ops IH]; intros t q v Hq H; [exact Hq |].
  cbn [run_ops fold_left]. fold (run_ops ops (run_op t o)).
  destruct o as [p|p v']; cbn [run_op ops_writes map fst In] in *.
  - apply IH; [| exact H]. by rewrite lookup_ensure, Hq.
  - apply IH; [| tauto]. rewrite lookup_insert_ne; [exact Hq | tauto].
Qed.

(** What a list of writes leaves on a leaf depends on what the leaves held,
    not on which of them existed. *)
Lemma leaf_value_written_ext l : forall (t1 t2 : gmap string value),
  (forall q, leaf_value t1 q = leaf_value t2 q) ->
  forall q, leaf_value (written l t1) q = leaf_value (written l t2) q.
Proof.
  induction l as [|[n x] l IH]; intros t1 t2 H q; [apply H |].
  unfold written. cbn [fold_left fst snd]. apply IH.
  intros p. rewrite !leaf_value_insert. by destruct (decide (n = p)).
Qed.

(** Read as values, the steps amount to their writes. *)
Lemma leaf_value_run_ops ops : forall (t : gmap string value) q,
  leaf_value (run_ops ops t) q = leaf_value (written (ops_writes ops) t) q.
Proof.
  induction ops as [|o ops IH]; intros t q; [reflexivity |].
  cbn [run_ops fold_left]. fold (run_ops ops (run_op t o)).
  rewrite IH. destruct o as [p|p v]; cbn [run_op ops_writes].
  - apply leaf_value_written_ext. intros r. apply leaf_value_ensure.
  - reflexivity.
Qed.

Section BindSteps.
Variable env : Env.

(** [bind] never fails: it returns [true], leaves every handle bound,
    prints nothing, and does to the tree what [bind_ops] lists. *)
Lemma bind_steps this w :
  exists w1,
    bind env this w = Some (true, bound this, w1)
    /\ stdout w1 = stdout w
    /\ writes w1
       = (writes w ++ ops_writes (bind_ops env this (tree w)))%list
    /\ tree w1 = run_ops (bind_ops env this (tree w)) (tree w).
Proof.
  unfold bind, bind_ops, andThen. create_nodes.
  destruct (Rgt_dec (_target_agl_ft this) 0);
    cbn [setDoubleValue store ret tree writes stdout]; create_nodes;
    (destruct (Rgt_dec (_target_speed_kt this) 0);
     cbn [setDoubleValue store ret tree writes stdout]; create_nodes;
     cbn [getDoubleValue tree writes stdout]; reads_of_start).
  all: destruct (Rlt_dec (read_double env (tree w)
         "/config/fcs/autopilot/L1-controller/bank-limit-deg") 0.1);
    cbn [setDoubleValue getDoubleValue store ret tree writes stdout];
    reads_of_start.
  all: destruct (Rlt_dec (read_double env (tree w)
         "/config/fcs/autopilot/L1-controller/period") 0.1);
    cbn [setDoubleValue getDoubleValue store ret tree writes stdout];
    create_nodes.
  all: eexists; split; [reflexivity |]; cbn [tree writes stdout].
  all: split; [reflexivity |].
  all: cbn [app ops_writes run_ops fold_left run_op].
  all: split; [rewrite <- ?app_assoc; cbn [app]; try rewrite app_nil_r;
               reflexivity | reflexivity].
Qed.

Lemma bind_ops_leaves this t p :
  In p (map op_leaf (bind_ops env this t)) <-> In p (bound_leaves this).
Proof.
  unfold bind_ops.
  match goal with
  | |- In p (map op_leaf (?A ++ ?c1 ++ ?B ++ ?c2 ++ ?C ++ ?c3 ++ ?c4 ++ ?D))
       <-> _ =>
      change (bound_leaves this)
        with (map op_leaf A ++ map op_leaf B ++ map op_leaf C
              ++ map op_leaf D)%list;
      assert (H1 : In p (map op_leaf c1) -> In p (map op_leaf A))
        by (by_cases; cbn [map op_leaf In]; tauto);
      assert (H2 : In p (map op_leaf c2) -> In p (map op_leaf B))
        by (by_cases; cbn [map op_leaf In]; tauto);
      assert (H3 : In p (map op_leaf c3) -> In p (map op_leaf C))
        by (by_cases; cbn [map op_leaf In]; tauto);
      assert (H4 : In p (map op_leaf c4) -> In p (map op_leaf C))
        by (by_cases; cbn [map op_leaf In]; tauto);
      rewrite !map_app, !in_app_iff;
      revert H1 H2 H3 H4;
      generalize (In p (map op_leaf A)) (In p (map op_leaf B))
                 (In p (map op_leaf C)) (In p (map op_leaf D))
                 (In p (map op_leaf c1)) (In p (map op_leaf c2))
                 (In p (map op_leaf c3)) (In p (map op_leaf c4))
  end.
  tauto.
Qed.

Lemma bind_ops_writes this t :
  ops_writes (bind_ops env this t) = bind_writes env this t.
Proof.
  unfold bind_ops, bind_writes. by_cases; reflexivity.
Qed.

End BindSteps.

(** ** What [bind] leaves behind *)

Lemma lookup_of_leaf_value (t : gmap string value) p v :
  is_Some (t !! p) -> leaf_value t p = v -> t !! p = Some v.
Proof. unfold leaf_value. intros [x ->] <-. reflexivity. Qed.

(** Steps that look up leaves that exist, and write what is there already,
    change nothing. *)
Lemma run_ops_nothing ops : forall (t : gmap string value),
  Forall (fun o => match o with
                   | Lookup p => is_Some (t !! p)
                   | Set_ p v => t !! p = Some v
                   end) ops ->
  run_ops ops t = t.
Proof.
  induction ops as [|o ops IH]; intros t H; [reflexivity |].
  inversion H as [|o' ops' Ho Hops]; subst.
  cbn [run_ops fold_left]. fold (run_ops ops (run_op t o)).
  assert (E : run_op t o = t).
  { destruct o as [p|p v]; cbn [run_op].
    - unfold ensure. destruct Ho as [x ->]. reflexivity.
    - by apply insert_id. }
  rewrite E. by apply IH.
Qed.

(** A leaf no write names reads as before the writes. *)
Lemma leaf_value_written_other l : forall (t : gmap string value) q,
  ~ In q (map fst l) -> leaf_value (written l t) q = leaf_value t q.
Proof.
  induction l as [|[n x] l IH]; intros t q H; [reflexivity |].
  unfold written. cbn [fold_left fst snd].
  fold (written l (<[n := x]> t)). rewrite IH.
  - apply leaf_value_insert_ne. intros E. apply H. left. exact E.
  - intros Hin. apply H. right. exact Hin.
Qed.

Section AfterBind.
Variable env : Env.

Lemma bind_writes_targets this t p :
  In p (map fst (bind_writes env this t)) -> In p (bind_targets this).
Proof.
  unfold bind_writes, bind_targets.
  by_cases; cbn [app map fst In]; tauto.
Qed.

(** X4: [bind] never fails and prints nothing; afterwards each of the 23
    leaves it binds exists, every other leaf is as it was (missing leaves
    stay missing), and a leaf that existed keeps what it held unless it is
    one of the four [bind] may write. *)
Theorem bind_creates_leaves (this : AuraCircleMgr) (w : world) :
  exists w1,
    bind env this w = Some (true, bound this, w1)
    /\ stdout w1 = stdout w
    /\ (forall p, In p (bound_leaves this) -> is_Some (tree w1 !! p))
    /\ (forall p, ~ In p (bound_leaves this) -> tree w1 !! p = tree w !! p)
    /\ (forall p v, tree w !! p = Some v -> ~ In p (bind_targets this) ->
                    tree w1 !! p = Some v).
Proof.
  destruct (bind_steps env this w) as (w1 & Hb & Hout & _ & Ht).
  exists w1. do 2 (split; [assumption |]). rewrite Ht. split; [| split].
  - intros p Hp. by apply run_ops_creates, bind_ops_leaves.
  - intros p Hp. apply run_ops_other. by rewrite bind_ops_leaves.
  - intros p v Hv Hp. apply run_ops_keeps; [exact Hv |].
    rewrite bind_ops_writes. intros Hin. apply Hp.
    by apply bind_writes_targets in Hin.
Qed.

(** What the leaves hold after [bind], read as values. *)
Lemma bind_leaf_values this w :
  exists w1,
    bind env this w = Some (true, bound this, w1)
    /\ forall p, leaf_value (tree w1) p
                 = leaf_value (written (bind_writes env this (tree w))
                                       (tree w)) p.
Proof.
  destruct (bind_steps env this w) as (w1 & Hb & _ & _ & Ht).
  exists w1. split; [exact Hb |]. intros p.
  by rewrite Ht, leaf_value_run_ops, bind_ops_writes.
Qed.

(** X5: after [bind] the bank limit is 20 when it read below 0.1 before
    and is unchanged otherwise; the L1 period is 25 when it read below 0.1
    and is unchanged otherwise. *)
Theorem bind_tuning_defaults (this : AuraCircleMgr) (w : world) :
  let bank_limit :=
    read_double env (tree w)
                "/config/fcs/autopilot/L1-controller/bank-limit-deg" in
  let period :=
    read_double env (tree w) "/config/fcs/autopilot/L1-controller/period" in
  exists w1,
    bind env this w = Some (true, bound this, w1)
    /\ read_double env (tree w1)
                   "/config/fcs/autopilot/L1-controller/bank-limit-deg"
       = (if Rlt_dec bank_limit 0.1 then 20 else bank_limit)
    /\ read_double env (tree w1) "/config/fcs/autopilot/L1-controller/period"
       = (if Rlt_dec period 0.1 then 25 else period).
Proof.
  intros bl pd. destruct (bind_leaf_values this w) as (w1 & Hb & Ht).
  exists w1. split; [exact Hb |].
  rewrite !(read_double_after_bind env this w w1 Ht).
  unfold bind_writes, written. fold bl pd.
  split; by_cases; cbn [app fold_left fst snd];
    rewrite ?read_double_insert;
    rewrite ?read_double_insert_ne by path_neq;
    rewrite ?read_double_insert; reflexivity.
Qed.

(** X7: [bind] writes none of the leaves direction, radius-m,
    longitude-deg and latitude-deg under the configuration path (they read
    after [bind] as before), so the direction and the radius given to the
    constructor do not reach the tree. *)
Theorem bind_keeps_circle (this : AuraCircleMgr) (w : world) :
  exists w1 l,
    bind env this w = Some (true, bound this, w1)
    /\ writes w1 = (writes w ++ l)%list
    /\ forall name,
         In name ["direction"; "radius-m"; "longitude-deg"; "latitude-deg"] ->
         count_writes (config_leaf this name) l = 0%nat
         /\ leaf_value (tree w1) (config_leaf this name)
            = leaf_value (tree w) (config_leaf this name).
Proof.
  destruct (bind_bound env this w) as (w1 & Hb & _ & Hw & Ht).
  exists w1, (bind_writes env this (tree w)).
  do 2 (split; [assumption |]).
  intros name Hname.
  assert (Hnot : ~ In (config_leaf this name)
                      (map fst (bind_writes env this (tree w)))).
  { intros Hin. apply bind_writes_targets in Hin.
    destruct Hname as [<-|[<-|[<-|[<-|[]]]]];
      destruct Hin as [E|[E|[E|[E|[]]]]]; revert E; path_neq. }
  split; [by apply count_writes_absent |].
  rewrite Ht. by apply leaf_value_written_other.
Qed.

End AfterBind.

Section BindAgain.
Variable env : Env.

(** The world [bind] leaves: every bound leaf exists, a positive override is
    on its leaf, and the two tuning values are at least 0.1. *)
Lemma bind_result this w :
  exists w1,
    bind env this w = Some (true, bound this, w1)
    /\ (forall p, In p (bound_leaves this) -> is_Some (tree w1 !! p))
    /\ (_target_agl_ft this > 0 ->
        tree w1 !! config_leaf this "altitude-agl-ft"
        = Some (VDouble (_target_agl_ft this)))
    /\ (_target_speed_kt this > 0 ->
        tree w1 !! config_leaf this "speed-kt"
        = Some (VDouble (_target_speed_kt this)))
    /\ 0.1 <= read_double env (tree w1)
                "/config/fcs/autopilot/L1-controller/bank-limit-deg"
    /\ 0.1 <= read_double env (tree w1)
                "/config/fcs/autopilot/L1-controller/period".
Proof.
  destruct (bind_steps env this w) as (w1 & Hb & _ & _ & Ht).
  destruct (bind_tuning_floor env this w) as (w1' & Hb' & Hbank & Hperiod).
  assert (w1' = w1) by congruence. subst w1'.
  assert (Hex : forall p, In p (bound_leaves this) -> is_Some (tree w1 !! p)).
  { intros p Hp. rewrite Ht. by apply run_ops_creates, bind_ops_leaves. }
  assert (Hv : forall p, leaf_value (tree w1) p
                 = leaf_value (written (bind_writes env this (tree w))
                                       (tree w)) p).
  { intros p. by rewrite Ht, leaf_value_run_ops, bind_ops_writes. }
  exists w1. split; [exact Hb |]. split; [exact Hex |].
  split; [| split; [| split; assumption]].
  - intros Hpos. apply lookup_of_leaf_value; [apply Hex; in_list |].
    rewrite Hv. unfold bind_writes, written.
    by_cases; try lra; cbn [app fold_left fst snd];
      rewrite ?leaf_value_insert_ne by path_neq;
      apply leaf_value_insert_eq.
  - intros Hpos. apply lookup_of_leaf_value; [apply Hex; in_list |].
    rewrite Hv. unfold bind_writes, written.
    by_cases; try lra; cbn [app fold_left fst snd];
      rewrite ?leaf_value_insert_ne by path_neq;
      apply leaf_value_insert_eq.
Qed.

(** X9: binding a second time changes nothing in the tree; its only
    writes repeat the positive overrides, and the defaults of the tuning
    values are not written again. *)
Theorem bind_again_changes_nothing (this : AuraCircleMgr) (w : world) :
  exists w1 w2,
    bind env this w = Some (true, bound this, w1)
    /\ bind env (bound this) w1 = Some (true, bound this, w2)
    /\ tree w2 = tree w1
    /\ writes w2
       = (writes w1
          ++ (if Rgt_dec (_target_agl_ft this) 0
              then [(config_leaf this "altitude-agl-ft",
                     VDouble (_target_agl_ft this))]
              else [])
          ++ (if Rgt_dec (_target_speed_kt this) 0
              then [(config_leaf this "speed-kt",
                     VDouble (_target_speed_kt this))]
              else []))%list.
Proof.
  destruct (bind_result this w) as (w1 & Hb1 & Hex & Hagl & Hspeed & Hbl & Hpd).
  destruct (bind_steps env (bound this) w1) as (w2 & Hb2 & _ & Hw2 & Ht2).
  change (bound (bound this)) with (bound this) in Hb2.
  exists w1, w2. do 2 (split; [assumption |]).
  rewrite Hw2, Ht2. unfold bind_ops.
  change (_target_agl_ft (bound this)) with (_target_agl_ft this).
  change (_target_speed_kt (bound this)) with (_target_speed_kt this).
  destruct (Rlt_dec (read_double env (tree w1)
              "/config/fcs/autopilot/L1-controller/bank-limit-deg") 0.1);
    [lra |].
  destruct (Rlt_dec (read_double env (tree w1)
              "/config/fcs/autopilot/L1-controller/period") 0.1);
    [lra |].
  split.
  - apply run_ops_nothing.
    destruct (Rgt_dec (_target_agl_ft this) 0);
      destruct (Rgt_dec (_target_speed_kt this) 0);
      cbn [app]; repeat constructor;
      first [ by apply Hagl | by apply Hspeed
            | apply Hex; in_list ].
  - destruct (Rgt_dec (_target_agl_ft this) 0);
      destruct (Rgt_dec (_target_speed_kt this) 0); reflexivity.
Qed.

(** X8: of the manager, a tick uses the configuration path only: two
    bound managers with the same path do the same in the same world,
    whatever direction, radius and overrides they were constructed with. *)
Theorem tick_ignores_task_parameters (this1 this2 : AuraCircleMgr)
    (w : world) :
  config_path this1 = config_path this2 ->
  update env (bound this1) w = update env (bound this2) w.
Proof.
  intros H. rewrite !update_bound. do 3 f_equal.
  unfold locals, config_leaf. rewrite H. reflexivity.
Qed.

End BindAgain.

(** ** More on the arithmetic of a tick *)

(** At the centre the target course is the bearing turned by half a circle. *)
Lemma target_crs_centre_left course radius_m :
  0 <= course < 360 -> 10 <= radius_m ->
  target_crs (ideal_crs course 1) 1 0 radius_m
  = if Rgt_dec course 180 then course - 180 else course + 180.
Proof.
  intros Hc Hr. unfold target_crs.
  destruct (Rlt_dec 0 radius_m); [| lra].
  replace (1 * 90 * (1 - 0 / radius_m)) with 90 by (field; lra).
  unfold ideal_crs, wrap_course. by_cases; lra.
Qed.

Lemma target_crs_centre_right course radius_m :
  0 <= course < 360 -> 10 <= radius_m ->
  target_crs (ideal_crs course (-1)) (-1) 0 radius_m
  = if Rlt_dec course 180 then course + 180 else course - 180.
Proof.
  intros Hc Hr. unfold target_crs.
  destruct (Rlt_dec 0 radius_m); [| lra].
  replace (-1 * 90 * (1 - 0 / radius_m)) with (-90) by (field; lra).
  unfold ideal_crs, wrap_course. by_cases; lra.
Qed.

(** The bank, before the limit, is strictly between -90 and 90 degrees. *)
Lemma bank_of_accel_range a : -90 < bank_of_accel a < 90.
Proof.
  unfold bank_of_accel, SG_RADIANS_TO_DEGREES.
  pose proof (atan_bound (a / gravity)) as [Hlo Hhi].
  pose proof PI_RGT_0 as Hpi.
  assert (E : - atan (a / gravity) * (180 / PI)
              = 180 * (- atan (a / gravity) / PI)) by (field; lra).
  rewrite E.
  assert (Hq : -1 / 2 < - atan (a / gravity) / PI < 1 / 2).
  { assert (F : - atan (a / gravity)
                = - atan (a / gravity) / PI * PI) by (field; lra).
    revert F. generalize (- atan (a / gravity) / PI). intros q F. nra. }
  lra.
Qed.

Lemma bank_of_accel_zero : bank_of_accel 0 = 0.
Proof.
  unfold bank_of_accel, gravity.
  replace (0 / 9.81) with 0 by lra. rewrite atan_0. lra.
Qed.

(** The bank has the sign opposite to the acceleration. *)
Lemma bank_of_accel_negative a : 0 < a -> bank_of_accel a < 0.
Proof.
  intros Ha. unfold bank_of_accel, SG_RADIANS_TO_DEGREES, gravity.
  assert (H : 0 < atan (a / 9.81)).
  { rewrite <- atan_0. apply atan_increasing.
    apply Rdiv_lt_0_compat; lra. }
  pose proof PI_RGT_0 as Hpi.
  assert (0 < 180 / PI) by (apply Rdiv_lt_0_compat; lra).
  nra.
Qed.

Lemma bank_of_accel_positive a : a < 0 -> 0 < bank_of_accel a.
Proof.
  intros Ha. unfold bank_of_accel, SG_RADIANS_TO_DEGREES, gravity.
  assert (H : atan (a / 9.81) < 0).
  { rewrite <- atan_0. apply atan_increasing.
    assert (0 < - a / 9.81) by (apply Rdiv_lt_0_compat; lra).
    replace (a / 9.81) with (- (- a / 9.81)) by (field; lra). lra. }
  pose proof PI_RGT_0 as Hpi.
  assert (0 < 180 / PI) by (apply Rdiv_lt_0_compat; lra).
  nra.
Qed.

Lemma limit_bank_inactive b limit :
  - limit <= b <= limit -> limit_bank b limit = b.
Proof. unfold limit_bank. intros H. by_cases; lra. Qed.

Lemma eta_sec_bounds dist_m gs_mps :
  0 <= dist_m -> 0 <= eta_sec dist_m gs_mps <= 10 * dist_m.
Proof.
  intros Hd. unfold eta_sec. destruct (Rgt_dec gs_mps one_tenth); [| lra].
  assert (Hg : 0.1 < gs_mps) by (unfold one_tenth in *; lra).
  assert (E : dist_m = dist_m / gs_mps * gs_mps) by (field; lra).
  revert E. generalize (dist_m / gs_mps). intros q E. nra.
Qed.

(** ** More properties of a tick *)

Section MoreTicks.
Variable env : Env.

(** What a tick publishes does not change what the next tick reads. *)
Lemma locals_after_publish this l w :
  locals env this (tree (publish l w)) = locals env this (tree w).
Proof.
  rewrite tree_publish. unfold locals.
  rewrite !read_string_insert_ne by path_neq.
  rewrite !read_double_insert_ne by path_neq.
  reflexivity.
Qed.

(** Publishing the same values again leaves the tree as it is. *)
Lemma publish_again l w : tree (publish l (publish l w)) = tree (publish l w).
Proof.
  rewrite (tree_publish l (publish l w)), (tree_publish l w).
  apply map_eq. intros p. rewrite !lookup_insert.
  repeat case_decide; congruence.
Qed.

(** X10: ticks keep no state.  When nothing else writes to the tree, every
    one of [n + 1] ticks in a row writes the same four values, the tree
    after them is the tree after the first, and the next tick would
    compute the same again. *)
Theorem ticks_hold_no_state (this : AuraCircleMgr) (n : nat) (w : world) :
  let l := locals env this (tree w) in
  exists w',
    run_ticks env (S n) (bound this) w = Some (true, w')
    /\ writes w' = (writes w ++ concat (repeat (tick_writes l) (S n)))%list
    /\ tree w' = tree (publish l w)
    /\ locals env this (tree w') = l.
Proof.
  intros l. subst l. revert w. induction n as [|n IH]; intros w.
  - cbn [run_ticks]. unfold andThen. rewrite update_bound.
    eexists. split; [reflexivity |].
    cbn [publish writes repeat concat]. rewrite app_nil_r.
    split; [reflexivity |]. split; [reflexivity |].
    apply locals_after_publish.
  - set (l := locals env this (tree w)).
    change (run_ticks env (S (S n)) (bound this) w)
      with (andThen (update env (bound this))
                    (fun _ => run_ticks env (S n) (bound this)) w).
    unfold andThen. rewrite update_bound. fold l.
    destruct (IH (publish l w)) as (w' & Hrun & Hw & Ht & Hl).
    rewrite locals_after_publish in Hw, Ht, Hl. fold l in Hw, Ht, Hl.
    exists w'. split; [exact Hrun |].
    split.
    { rewrite Hw. cbn [publish writes].
      change (concat (repeat (tick_writes l) (S (S n))))
        with (tick_writes l ++ concat (repeat (tick_writes l) (S n)))%list.
      by rewrite <- app_assoc. }
    split; [rewrite Ht; apply publish_again | exact Hl].
Qed.

(** X11: a tick depends on the tree through the ten leaves it reads only:
    in two worlds that agree on them (read as values) it publishes the same
    four values. *)
Theorem tick_reads_inputs_only (this : AuraCircleMgr) (w1 w2 : world) :
  (forall p, In p (inputs this) ->
             leaf_value (tree w1) p = leaf_value (tree w2) p) ->
  exists l,
    update env (bound this) w1 = Some (true, publish l w1)
    /\ update env (bound this) w2 = Some (true, publish l w2).
Proof.
  intros H. exists (locals env this (tree w1)).
  rewrite !update_bound. split; [reflexivity |].
  by rewrite (locals_of_inputs env this (tree w1) (tree w2) H).
Qed.

(** X12: with the vehicle at the centre (distance 0) and a bearing in
    [0, 360), the course written is in [0, 360] and is the bearing turned
    by 180 degrees, up to a full turn and a billionth of a degree. *)
Theorem centre_singularity (this : AuraCircleMgr) (w : world) :
  let l := locals env this (tree w) in
  0 <= t_course_deg l < 360 ->
  t_dist_m l = 0 ->
  exists w',
    update env (bound this) w = Some (true, w')
    /\ same_course 1e-9
         (read_double env (tree w')
                      "/autopilot/settings/target-groundtrack-deg")
         (t_course_deg l + 180)
    /\ 0 <= read_double env (tree w')
              "/autopilot/settings/target-groundtrack-deg" <= 360.
Proof.
  intros l Hc Hd. eexists. split; [apply update_bound |].
  rewrite published_course. fold l.
  assert (E : t_target_crs l
              = target_crs (ideal_crs (t_course_deg l) (t_direction l))
                           (t_direction l) (t_dist_m l) (t_radius_m l))
    by reflexivity.
  pose proof (locals_radius_floor env this (tree w)) as Hr. fold l in Hr.
  pose proof (locals_direction_cases env this (tree w)) as Hdir.
  cbv zeta in Hdir. fold l in Hdir.
  split.
  - apply same_course_eq; [lra |]. rewrite E, Hd.
    destruct Hdir as [-> | ->].
    + rewrite target_crs_centre_left by assumption.
      destruct (Rgt_dec (t_course_deg l) 180);
        [right; right; lra | by left].
    + rewrite target_crs_centre_right by assumption.
      destruct (Rlt_dec (t_course_deg l) 180);
        [by left | right; right; lra].
  - rewrite E. apply target_crs_range; [exact Hdir | exact Hc | lra | exact Hr].
Qed.

(** X13: with a bearing in [0, 360), a distance that is not negative and a
    ground track between -180 and 540, the course error of the tick lies in
    [-180, 180] and differs from ground track minus target course by 0, 360
    or -360. *)
Theorem course_error_wrapped (this : AuraCircleMgr) (w : world) :
  let l := locals env this (tree w) in
  0 <= t_course_deg l < 360 ->
  0 <= t_dist_m l ->
  -180 <= t_groundtrack l <= 540 ->
  -180 <= t_course_error l <= 180
  /\ (t_course_error l = t_groundtrack l - t_target_crs l
      \/ t_course_error l = t_groundtrack l - t_target_crs l + 360
      \/ t_course_error l = t_groundtrack l - t_target_crs l - 360).
Proof.
  intros l Hc Hd Hg.
  assert (Ht : 0 <= t_target_crs l <= 360).
  { apply target_crs_range; auto.
    - apply locals_direction_cases.
    - apply locals_radius_floor. }
  assert (E : t_course_error l
              = course_error (t_groundtrack l) (t_target_crs l))
    by reflexivity.
  rewrite E. apply course_error_range. lra.
Qed.

(** X15: at a ground speed of 0 (with an L1 period other than 0 and a bank
    limit that is not negative) the tick writes a bank of 0 and a time to
    the centre of 0. *)
Theorem at_rest_wings_level (this : AuraCircleMgr) (w : world) :
  let l := locals env this (tree w) in
  t_gs_mps l = 0 ->
  t_L1_period l <> 0 ->
  0 <= t_bank_limit_deg l ->
  exists w',
    update env (bound this) w = Some (true, w')
    /\ read_double env (tree w') "/autopilot/settings/target-roll-deg" = 0
    /\ read_double env (tree w') "/mission/route/wp-eta-sec" = 0.
Proof.
  intros l HV _ HL. eexists. split; [apply update_bound |].
  rewrite published_roll, published_eta. fold l.
  assert (E : t_target_bank_deg l
              = limit_bank
                  (bank_of_accel
                     (ideal_accel (t_direction l) (t_gs_mps l) (t_radius_m l)
                      + track_accel (t_L1_period l) (t_gs_mps l)
                                    (t_course_error l)))
                  (t_bank_limit_deg l)) by reflexivity.
  rewrite E, HV.
  split.
  - unfold ideal_accel, track_accel.
    replace (t_direction l * 0 * 0 / t_radius_m l
             + 2 * sin (t_course_error l * SG_DEGREES_TO_RADIANS)
               * (0 * (sqrt_of_2 * SGD_PI / t_L1_period l)))
      with 0 by (unfold Rdiv; ring).
    rewrite bank_of_accel_zero. unfold limit_bank. by_cases; lra.
  - rewrite eta_sec_slow by (unfold one_tenth; lra). apply narrow_0.
Qed.

(** X16: in the steady state of the circle (distance equal to the radius,
    ground track equal to the ideal course, positive ground speed, L1 period
    other than 0, positive bank limit) the bank written is within the bank
    limit and not positive on a left circle, not negative on a right
    circle; from a ground speed of 0.001 m/s on it is negative on a left
    circle and positive on a right circle. *)
Theorem steady_bank_sign (this : AuraCircleMgr) (w : world) :
  let l := locals env this (tree w) in
  t_dist_m l = t_radius_m l ->
  t_groundtrack l = t_ideal_crs l ->
  0 < t_gs_mps l ->
  t_L1_period l <> 0 ->
  0 < t_bank_limit_deg l ->
  exists w',
    update env (bound this) w = Some (true, w')
    /\ (t_direction l = 1 ->
        - t_bank_limit_deg l
        <= read_double env (tree w') "/autopilot/settings/target-roll-deg"
        <= 0
        /\ (0.001 <= t_gs_mps l ->
            read_double env (tree w') "/autopilot/settings/target-roll-deg"
            < 0))
    /\ (t_direction l = -1 ->
        0 <= read_double env (tree w') "/autopilot/settings/target-roll-deg"
        <= t_bank_limit_deg l
        /\ (0.001 <= t_gs_mps l ->
            0 < read_double env (tree w')
                  "/autopilot/settings/target-roll-deg")).
Proof.
  intros l Hd Hg HV _ HL. eexists. split; [apply update_bound |].
  rewrite published_roll. fold l.
  assert (Hcrs : t_target_crs l = t_ideal_crs l).
  { change (t_target_crs l)
      with (target_crs (t_ideal_crs l) (t_direction l) (t_dist_m l)
                       (t_radius_m l)).
    rewrite Hd. unfold target_crs. by_cases; lra. }
  assert (Hacc : t_accel l = 0).
  { change (t_accel l)
      with (track_accel (t_L1_period l) (t_gs_mps l)
              (course_error (t_groundtrack l) (t_target_crs l))).
    rewrite Hcrs, Hg, course_error_same.
    apply track_accel_on_course. }
  pose proof (locals_radius_floor env this (tree w)) as Hr. fold l in Hr.
  assert (E : t_target_bank_deg l
              = limit_bank
                  (bank_of_accel
                     (ideal_accel (t_direction l) (t_gs_mps l) (t_radius_m l)
                      + t_accel l))
                  (t_bank_limit_deg l)) by reflexivity.
  rewrite E, Hacc, Rplus_0_r.
  pose proof (limit_bank_range
                (bank_of_accel
                   (ideal_accel (t_direction l) (t_gs_mps l) (t_radius_m l)))
                (t_bank_limit_deg l)) as Hlim.
  split; intros Hdir; rewrite Hdir in *.
  - assert (Hpos : 0 < ideal_accel 1 (t_gs_mps l) (t_radius_m l)).
    { unfold ideal_accel. apply Rdiv_lt_0_compat; nra. }
    apply bank_of_accel_negative in Hpos.
    unfold limit_bank in *. split; [| intros _]; by_cases; lra.
  - assert (Hneg : ideal_accel (-1) (t_gs_mps l) (t_radius_m l) < 0).
    { unfold ideal_accel.
      assert (0 < t_gs_mps l * t_gs_mps l / t_radius_m l)
        by (apply Rdiv_lt_0_compat; nra).
      replace (-1 * t_gs_mps l * t_gs_mps l / t_radius_m l)
        with (- (t_gs_mps l * t_gs_mps l / t_radius_m l))
        by (field; lra).
      lra. }
    apply bank_of_accel_positive in Hneg.
    unfold limit_bank in *. split; [| intros _]; by_cases; lra.
Qed.

(** X20: with a distance that is not negative (and at most 10^30 m), the
    time written to wp-eta-sec is not negative and, the narrowing to a
    [float] counted in, at most 10.00001 seconds for every metre of
    distance and 10^-40 seconds. *)
Theorem eta_bounds (this : AuraCircleMgr) (w : world) :
  let l := locals env this (tree w) in
  0 <= t_dist_m l <= 1e30 ->
  exists w',
    update env (bound this) w = Some (true, w')
    /\ 0 <= read_double env (tree w') "/mission/route/wp-eta-sec"
       <= 10.00001 * t_dist_m l + 1e-40.
Proof.
  intros l [Hd _]. eexists. split; [apply update_bound |].
  rewrite published_eta. fold l.
  pose proof (eta_sec_bounds (t_dist_m l) (t_gs_mps l) Hd) as [H0 H10].
  split; [by apply narrow_nonneg |].
  pose proof (narrow_upper _ H0). lra.
Qed.

(** X18: whatever the radius leaf holds, the acceleration that holds the
    circle is at most the square of the ground speed divided by 10, in
    either direction. *)
Theorem centripetal_bounded (this : AuraCircleMgr) (w : world) :
  let l := locals env this (tree w) in
  - ((t_gs_mps l)² / 10) <= t_ideal_accel l <= (t_gs_mps l)² / 10.
Proof.
  intros l.
  change (t_ideal_accel l)
    with (ideal_accel (t_direction l) (t_gs_mps l) (t_radius_m l)).
  pose proof (locals_radius_floor env this (tree w)) as Hr. fold l in Hr.
  pose proof (locals_direction_cases env this (tree w)) as Hd.
  cbv zeta in Hd. fold l in Hd.
  unfold ideal_accel, Rsqr.
  assert (E : t_gs_mps l * t_gs_mps l
              = t_gs_mps l * t_gs_mps l / t_radius_m l * t_radius_m l)
    by (field; lra).
  assert (Hq : 0 <= t_gs_mps l * t_gs_mps l / t_radius_m l
               <= t_gs_mps l * t_gs_mps l / 10).
  { revert E. generalize (t_gs_mps l * t_gs_mps l / t_radius_m l).
    intros q E. nra. }
  destruct Hd as [-> | ->].
  - replace (1 * t_gs_mps l * t_gs_mps l / t_radius_m l)
      with (t_gs_mps l * t_gs_mps l / t_radius_m l) by (field; lra).
    lra.
  - replace (-1 * t_gs_mps l * t_gs_mps l / t_radius_m l)
      with (- (t_gs_mps l * t_gs_mps l / t_radius_m l)) by (field; lra).
    lra.
Qed.

End MoreTicks.

(** ** Reconfiguring, and a whole flight *)

Section Flight.
Variable env : Env.

(** The target course of a tick after the direction and the radius leaves
    have been written. *)
Lemma locals_reconfigured this (t : gmap string value) s r :
  t_target_crs
    (locals env this
       (<[config_leaf this "radius-m" := VDouble r]>
          (<[config_leaf this "direction" := VString s]> t)))
  = target_crs
      (ideal_crs (t_course_deg (locals env this t)) (direction_of s))
      (direction_of s) (t_dist_m (locals env this t)) (clamp_radius r).
Proof.
  unfold locals. cbn [t_target_crs t_course_deg t_dist_m].
  rewrite read_double_insert. cbn [as_double].
  rewrite (read_string_insert_ne env _ (config_leaf this "radius-m")
             (config_leaf this "direction")) by path_neq.
  rewrite read_string_insert. cbn [as_string].
  rewrite !read_double_insert_ne by path_neq.
  reflexivity.
Qed.

(** X17: on a bound manager [set_direction] and [set_radius] never fail
    and write one leaf each: the direction leaf receives the string up to
    its first NUL character, the radius leaf the radius.  The next tick
    writes the course of the direction set and of the radius set, raised to
    10 when it is less; [get_center] reads without changing the world and
    returns the same centre before and after. *)
Theorem reconfigure_then_tick (this : AuraCircleMgr) (direction : string)
    (radius_m : R) (w : world) :
  let l := locals env this (tree w) in
  let d := direction_of (c_str direction) in
  exists c w1 w2 w3,
    get_center env (bound this) w = Some (c, w)
    /\ set_direction (bound this) direction w = Some (tt, w1)
    /\ set_radius (bound this) radius_m w1 = Some (tt, w2)
    /\ get_center env (bound this) w2 = Some (c, w2)
    /\ update env (bound this) w2 = Some (true, w3)
    /\ read_string env (tree w2) (config_leaf this "direction")
       = c_str direction
    /\ read_double env (tree w2) (config_leaf this "radius-m") = radius_m
    /\ read_double env (tree w3)
                   "/autopilot/settings/target-groundtrack-deg"
       = target_crs (ideal_crs (t_course_deg l) d) d (t_dist_m l)
                    (Rmax radius_m 10)
    /\ forall p, p <> config_leaf this "direction" ->
                 p <> config_leaf this "radius-m" ->
                 tree w2 !! p = tree w !! p.
Proof.
  intros l d. do 4 eexists.
  split; [reflexivity |]. split; [reflexivity |]. split; [reflexivity |].
  cbn [tree writes stdout].
  split.
  { unfold get_center, andThen, bound.
    cbn [coord_lon_node coord_lat_node getDoubleValue ret tree].
    rewrite !read_double_insert_ne by path_neq. reflexivity. }
  split; [apply update_bound |].
  rewrite published_course. cbn [tree].
  split; [| split; [| split]].
  - rewrite read_string_insert_ne by path_neq.
    by rewrite read_string_insert.
  - by rewrite read_double_insert.
  - rewrite locals_reconfigured, clamp_radius_max. reflexivity.
  - intros p Hd Hr. by rewrite !lookup_insert_ne.
Qed.



End Flight.

(** ** The further properties at sample inputs *)

(** Two tasks under /task/circle, one circling left without overrides and
    one with overrides, tick alike. *)
Lemma tick_ignores_task_parameters_witness :
  config_path loiter = config_path loiter_overrides
  /\ update (fixed_env 180 120) (bound loiter)
            (sample_world "left" 100 270 20 25 20)
     = update (fixed_env 180 120) (bound loiter_overrides)
              (sample_world "left" 100 270 20 25 20).
Proof.
  assert (H : config_path loiter = config_path loiter_overrides)
    by reflexivity.
  split; [exact H |].
  exact (tick_ignores_task_parameters (fixed_env 180 120) loiter
           loiter_overrides (sample_world "left" 100 270 20 25 20) H).
Defined.

(** A tree with a wind estimate added agrees with the tree without it on the
    ten leaves a tick reads, and the two ticks publish the same. *)
Lemma tick_reads_inputs_only_witness :
  (forall p, In p (inputs loiter) ->
     leaf_value (tree (sample_world "left" 100 270 20 25 20)) p
     = leaf_value
         (tree (with_leaf "/filters/wind-est/wind-speed-kt" (VDouble 30)
                  (sample_world "left" 100 270 20 25 20))) p)
  /\ exists l,
       update (fixed_env 180 120) (bound loiter)
              (sample_world "left" 100 270 20 25 20)
       = Some (true, publish l (sample_world "left" 100 270 20 25 20))
       /\ update (fixed_env 180 120) (bound loiter)
            (with_leaf "/filters/wind-est/wind-speed-kt" (VDouble 30)
               (sample_world "left" 100 270 20 25 20))
          = Some (true,
                  publish l
                    (with_leaf "/filters/wind-est/wind-speed-kt" (VDouble 30)
                       (sample_world "left" 100 270 20 25 20))).
Proof.
  assert (H : forall p, In p (inputs loiter) ->
     leaf_value (tree (sample_world "left" 100 270 20 25 20)) p
     = leaf_value
         (tree (with_leaf "/filters/wind-est/wind-speed-kt" (VDouble 30)
                  (sample_world "left" 100 270 20 25 20))) p).
  { intros p Hp. cbn [with_leaf tree]. symmetry.
    apply leaf_value_insert_ne. cbn [inputs In] in Hp.
    destruct Hp as [<-|[<-|[<-|[<-|[<-|[<-|[<-|[<-|[<-|[<-|[]]]]]]]]]]];
      path_neq. }
  split; [exact H |].
  exact (tick_reads_inputs_only (fixed_env 180 120) loiter _ _ H).
Defined.

(** At the centre, with the helper answering a bearing of 90, the tick
    writes a course of 270, up to the tolerance. *)
Lemma centre_singularity_witness :
  (0 <= t_course_deg (locals (fixed_env 90 0) loiter
                        (tree (sample_world "left" 100 270 20 25 20))) < 360
   /\ t_dist_m (locals (fixed_env 90 0) loiter
                  (tree (sample_world "left" 100 270 20 25 20))) = 0)
  /\ exists w',
       update (fixed_env 90 0) (bound loiter)
              (sample_world "left" 100 270 20 25 20) = Some (true, w')
       /\ same_course 1e-9
            (read_double (fixed_env 90 0) (tree w')
                         "/autopilot/settings/target-groundtrack-deg")
            (90 + 180).
Proof.
  destruct (sample_locals 90 0 "left" 100 270 20 25 20)
    as (Hdir & Hc & Hd & _).
  assert (H1 : 0 <= t_course_deg (locals (fixed_env 90 0) loiter
                  (tree (sample_world "left" 100 270 20 25 20))) < 360)
    by (rewrite Hc; lra).
  split; [split; [exact H1 | exact Hd] |].
  destruct (centre_singularity (fixed_env 90 0) loiter
              (sample_world "left" 100 270 20 25 20) H1 Hd)
    as (w' & Hu & Hsame & _).
  exists w'. split; [exact Hu |].
  rewrite Hc in Hsame. exact Hsame.
Defined.

(** Flying west at 120 m due north of the centre: the course error is
    within half a turn. *)
Lemma course_error_wrapped_witness :
  (0 <= t_course_deg (locals (fixed_env 180 120) loiter
                        (tree (sample_world "left" 100 270 20 25 20))) < 360
   /\ 0 <= t_dist_m (locals (fixed_env 180 120) loiter
                       (tree (sample_world "left" 100 270 20 25 20)))
   /\ -180 <= t_groundtrack (locals (fixed_env 180 120) loiter
                (tree (sample_world "left" 100 270 20 25 20))) <= 540)
  /\ -180 <= t_course_error (locals (fixed_env 180 120) loiter
                (tree (sample_world "left" 100 270 20 25 20))) <= 180.
Proof.
  destruct (sample_locals 180 120 "left" 100 270 20 25 20)
    as (_ & Hc & Hd & _ & Hg & _).
  assert (H1 : 0 <= t_course_deg (locals (fixed_env 180 120) loiter
                  (tree (sample_world "left" 100 270 20 25 20))) < 360)
    by (rewrite Hc; lra).
  assert (H2 : 0 <= t_dist_m (locals (fixed_env 180 120) loiter
                  (tree (sample_world "left" 100 270 20 25 20))))
    by (rewrite Hd; lra).
  assert (H3 : -180 <= t_groundtrack (locals (fixed_env 180 120) loiter
                  (tree (sample_world "left" 100 270 20 25 20))) <= 540)
    by (rewrite Hg; lra).
  split; [split; [exact H1 | split; [exact H2 | exact H3]] |].
  exact (proj1 (course_error_wrapped (fixed_env 180 120) loiter
                  (sample_world "left" 100 270 20 25 20) H1 H2 H3)).
Defined.

Lemma at_rest_wings_level_witness :
  (t_gs_mps (locals (fixed_env 180 120) loiter
               (tree (sample_world "left" 100 270 0 25 20))) = 0
   /\ t_L1_period (locals (fixed_env 180 120) loiter
                     (tree (sample_world "left" 100 270 0 25 20))) <> 0
   /\ 0 <= t_bank_limit_deg (locals (fixed_env 180 120) loiter
                     (tree (sample_world "left" 100 270 0 25 20))))
  /\ exists w',
       update (fixed_env 180 120) (bound loiter)
              (sample_world "left" 100 270 0 25 20) = Some (true, w')
       /\ read_double (fixed_env 180 120) (tree w')
                      "/autopilot/settings/target-roll-deg" = 0
       /\ read_double (fixed_env 180 120) (tree w')
                      "/mission/route/wp-eta-sec" = 0.
Proof.
  destruct (sample_locals 180 120 "left" 100 270 0 25 20)
    as (_ & _ & _ & _ & _ & Hv & _).
  destruct (sample_tuning 180 120 "left" 100 270 0 25 20) as (HL & Hb).
  assert (H2 : t_L1_period (locals (fixed_env 180 120) loiter
                  (tree (sample_world "left" 100 270 0 25 20))) <> 0)
    by (rewrite HL; lra).
  assert (H3 : 0 <= t_bank_limit_deg (locals (fixed_env 180 120) loiter
                  (tree (sample_world "left" 100 270 0 25 20))))
    by (rewrite Hb; lra).
  split; [split; [exact Hv | split; [exact H2 | exact H3]] |].
  exact (at_rest_wings_level (fixed_env 180 120) loiter
           (sample_world "left" 100 270 0 25 20) Hv H2 H3).
Defined.

Lemma steady_bank_sign_witness :
  (t_dist_m (locals (fixed_env 180 150) loiter
               (tree (sample_world "left" 150 270 25 25 20)))
   = t_radius_m (locals (fixed_env 180 150) loiter
                   (tree (sample_world "left" 150 270 25 25 20)))
   /\ t_groundtrack (locals (fixed_env 180 150) loiter
                       (tree (sample_world "left" 150 270 25 25 20)))
      = t_ideal_crs (locals (fixed_env 180 150) loiter
                       (tree (sample_world "left" 150 270 25 25 20)))
   /\ 0 < t_gs_mps (locals (fixed_env 180 150) loiter
                      (tree (sample_world "left" 150 270 25 25 20)))
   /\ t_L1_period (locals (fixed_env 180 150) loiter
                     (tree (sample_world "left" 150 270 25 25 20))) <> 0
   /\ 0 < t_bank_limit_deg (locals (fixed_env 180 150) loiter
                     (tree (sample_world "left" 150 270 25 25 20))))
  /\ exists w',
       update (fixed_env 180 150) (bound loiter)
              (sample_world "left" 150 270 25 25 20) = Some (true, w')
       /\ -20 <= read_double (fixed_env 180 150) (tree w')
                   "/autopilot/settings/target-roll-deg" < 0.
Proof.
  destruct (sample_locals 180 150 "left" 150 270 25 25 20)
    as (Hdir & _ & Hd & Hr & Hg & Hv & Hb).
  destruct (sample_tuning 180 150 "left" 150 270 25 25 20) as (HL & _).
  pose proof (sample_ideal_crs 180 150 "left" 150 270 25 25 20) as Hi.
  assert (Hr' : clamp_radius 150 = 150) by evaluate.
  assert (H1 : t_dist_m (locals (fixed_env 180 150) loiter
                 (tree (sample_world "left" 150 270 25 25 20)))
               = t_radius_m (locals (fixed_env 180 150) loiter
                   (tree (sample_world "left" 150 270 25 25 20))))
    by (rewrite Hd, Hr, Hr'; reflexivity).
  assert (H2 : t_groundtrack (locals (fixed_env 180 150) loiter
                 (tree (sample_world "left" 150 270 25 25 20)))
               = t_ideal_crs (locals (fixed_env 180 150) loiter
                   (tree (sample_world "left" 150 270 25 25 20))))
    by (rewrite Hg, Hi; evaluate).
  assert (H3 : 0 < t_gs_mps (locals (fixed_env 180 150) loiter
                 (tree (sample_world "left" 150 270 25 25 20))))
    by (rewrite Hv; lra).
  assert (H4 : t_L1_period (locals (fixed_env 180 150) loiter
                 (tree (sample_world "left" 150 270 25 25 20))) <> 0)
    by (rewrite HL; lra).
  assert (H5 : 0 < t_bank_limit_deg (locals (fixed_env 180 150) loiter
                 (tree (sample_world "left" 150 270 25 25 20))))
    by (rewrite Hb; lra).
  split; [repeat split; assumption |].
  destruct (steady_bank_sign (fixed_env 180 150) loiter
              (sample_world "left" 150 270 25 25 20) H1 H2 H3 H4 H5)
    as (w' & Hu & Hleft & _).
  exists w'. split; [exact Hu |].
  rewrite Hb, Hv in Hleft.
  destruct Hleft as [Hrange Hstrict]; [rewrite Hdir; reflexivity |].
  split; [apply Hrange | apply Hstrict; lra].
Defined.

Lemma eta_bounds_witness :
  0 <= t_dist_m (locals (fixed_env 180 120) loiter
                   (tree (sample_world "left" 100 270 20 25 20))) <= 1e30
  /\ exists w',
       update (fixed_env 180 120) (bound loiter)
              (sample_world "left" 100 270 20 25 20) = Some (true, w')
       /\ 0 <= read_double (fixed_env 180 120) (tree w')
                 "/mission/route/wp-eta-sec" <= 10.00001 * 120 + 1e-40.
Proof.
  destruct (sample_locals 180 120 "left" 100 270 20 25 20)
    as (_ & _ & Hd & _).
  assert (H : 0 <= t_dist_m (locals (fixed_env 180 120) loiter
                 (tree (sample_world "left" 100 270 20 25 20))) <= 1e30)
    by (rewrite Hd; lra).
  split; [exact H |].
  destruct (eta_bounds (fixed_env 180 120) loiter
              (sample_world "left" 100 270 20 25 20) H) as (w' & Hu & Hb).
  exists w'. split; [exact Hu |]. rewrite Hd in Hb. exact Hb.
Defined.
